(** * lingua-pratikar: the streaming voice session and the lesson progress

  A shallow embedding of the TypeScript sources:

  - [JS]           the string and array operations of the platform the
                   sources call ([startsWith], [split], [join], [trim],
                   [includes], template literals);
  - [Types]        types.ts;
  - [Constants]    constants.ts (curriculum and sample rates);
  - [LessonMap]    components/LessonMap.tsx ([allSteps], [isCompleted],
                   [isUnlocked]);
  - [App]          App.tsx ([handleSessionComplete]);
  - [LiveSession]  components/LiveSession.tsx: the component's state
                   ([useState] values, refs, the closure of the session
                   effect), its callbacks as state transformers, and the
                   React commit that follows every callback.

  JavaScript numbers that hold times of the audio clock are primitive
  binary64 floats; counters, array indices and millisecond timestamps are
  integers. *)

From Stdlib Require Import ZArith NArith List Bool Ascii String Lia.
From Stdlib Require Import DecimalString.
From Stdlib Require Import Floats.PrimFloat.
From stdpp Require Import base gmap list.

Local Open Scope Z_scope.

(* ===================================================================== *)
(** ** JavaScript strings and arrays *)
(* ===================================================================== *)

Module JS.

(** A JavaScript string is a sequence of UTF-16 code units. *)
Definition str : Type := list N.

(** An ASCII literal of the source, one code unit per character. *)
Definition lit (s : String.string) : str :=
  map N_of_ascii (list_ascii_of_string s).

Definition str_eqb (a b : str) : bool := bool_decide (a = b).

(** [s.startsWith(p)] *)
Fixpoint startsWith (s p : str) : bool :=
  match p with
  | [] => true
  | c :: p' =>
      match s with
      | [] => false
      | d :: s' => N.eqb c d && startsWith s' p'
      end
  end.

(** [s.split(sep)] for a non-empty separator: the pieces between the
    non-overlapping occurrences of [sep], found from left to right.
    [skip] counts the code units of a matched separator still to pass,
    [cur] is the current piece, reversed. *)
Fixpoint split_from (sep s : str) (skip : nat) (cur : str) : list str :=
  match s with
  | [] => [rev cur]
  | c :: s' =>
      match skip with
      | S k => split_from sep s' k cur
      | O =>
          if startsWith s sep
          then rev cur :: split_from sep s' (Nat.pred (length sep)) []
          else split_from sep s' O (c :: cur)
      end
  end.

Definition split (s sep : str) : list str := split_from sep s O [].

(** [a.join(sep)] *)
Fixpoint join (a : list str) (sep : str) : str :=
  match a with
  | [] => []
  | [x] => x
  | x :: rest => x ++ sep ++ join rest sep
  end.

(** [a.slice(1)] *)
Definition slice1 {A} (a : list A) : list A := tail a.

(** WhiteSpace and LineTerminator code points of ECMAScript, the ones
    [trim] removes; all of them are single code units. *)
Definition isWhiteSpace (c : N) : bool :=
  let c := Z.of_N c in
  (9 <=? c) && (c <=? 13)
  || (c =? 32) || (c =? 160) || (c =? 5760)
  || (8192 <=? c) && (c <=? 8202)
  || (c =? 8232) || (c =? 8233) || (c =? 8239) || (c =? 8287)
  || (c =? 12288) || (c =? 65279).

Fixpoint trimStart (s : str) : str :=
  match s with
  | [] => []
  | c :: s' => if isWhiteSpace c then trimStart s' else s
  end.

(** [s.trim()] *)
Definition trim (s : str) : str := rev (trimStart (rev (trimStart s))).

(** [a.includes(x)] on an array of strings. *)
Definition includes (a : list str) (x : str) : bool :=
  existsb (str_eqb x) a.

(** [Date.now().toString()] and the like: the decimal digits of an
    integer-valued number. *)
Definition toString (n : Z) : str :=
  lit (NilZero.string_of_int (Z.to_int n)).

(** Truthiness of an optional string: [undefined] and the empty string
    are falsy. *)
Definition truthy (o : option str) : bool :=
  match o with
  | Some (_ :: _) => true
  | _ => false
  end.

End JS.

(* ===================================================================== *)
(** ** types.ts *)
(* ===================================================================== *)

Module Types.

Variant Role := user | model.

Definition Role_eqb (a b : Role) : bool :=
  match a, b with
  | user, user | model, model => true
  | _, _ => false
  end.

(** [isPartial] is optional in the interface; every message the session
    builds carries it. *)
Record ChatMessage := {
  id : JS.str;
  role : Role;
  text : JS.str;
  isPartial : bool;
}.

Variant ConnectionState := DISCONNECTED | CONNECTING | CONNECTED | ERROR.

Variant StepType :=
  vocabulary | listening | reading | grammar | speaking | challenge.

(** The display fields ([title], [description], [icon], [color]) play no
    part in progress tracking and are left out. *)
Record Step := {
  step_id : JS.str;
  step_type : StepType;
  order : Z;
}.

Record Subject := {
  subject_id : JS.str;
  steps : list Step;
}.

Record Level := {
  level_id : JS.str;
  subjects : list Subject;
}.

(** Of [UserProfile], the progress fields. *)
Record UserProfile := {
  name : JS.str;
  completedSubjects : list JS.str;
  completedSteps : list JS.str;
}.

End Types.

(* ===================================================================== *)
(** ** constants.ts *)
(* ===================================================================== *)

Module Constants.
Import Types.

Definition AUDIO_SAMPLE_RATE_INPUT : Z := 16000.
Definition AUDIO_SAMPLE_RATE_OUTPUT : Z := 24000.

Definition STANDARD_STEPS : list Step :=
  [ {| step_id := JS.lit "step-1"; order := 1; step_type := vocabulary |};
    {| step_id := JS.lit "step-2"; order := 2; step_type := listening |};
    {| step_id := JS.lit "step-3"; order := 3; step_type := reading |};
    {| step_id := JS.lit "step-4"; order := 4; step_type := grammar |};
    {| step_id := JS.lit "step-5"; order := 5; step_type := speaking |};
    {| step_id := JS.lit "step-6"; order := 6; step_type := challenge |} ].

Definition subject (i : String.string) : Subject :=
  {| subject_id := JS.lit i; steps := STANDARD_STEPS |}.

Definition CURRICULUM : list Level :=
  [ {| level_id := JS.lit "A1";
       subjects := [ subject "a1-intro"; subject "a1-greetings";
                     subject "a1-numbers"; subject "a1-family";
                     subject "a1-food"; subject "a1-routine";
                     subject "a1-places"; subject "a1-shopping" ] |};
    {| level_id := JS.lit "A2"; subjects := [ subject "a2-work" ] |};
    {| level_id := JS.lit "B1"; subjects := [] |};
    {| level_id := JS.lit "B2"; subjects := [] |};
    {| level_id := JS.lit "C1"; subjects := [] |} ].

End Constants.

(* ===================================================================== *)
(** ** components/LessonMap.tsx *)
(* ===================================================================== *)

Module LessonMap.
Import Types.

(** An element of [stepsList]. *)
Record Entry := {
  level : Level;
  subject : Subject;
  step : Step;
  globalIndex : Z;
  isSubjectStart : bool;
  isLevelStart : bool;
}.

(** The three nested [forEach] loops; the loop state is the list built so
    far and the counter [gIndex]. *)
Definition eachStep (lv : Level) (sb : Subject) (sIdx : nat)
    (acc : list Entry * Z) (st : nat * Step) : list Entry * Z :=
  let '(stepsList, gIndex) := acc in
  let '(stepIdx, stp) := st in
  (stepsList ++
     [ {| level := lv; subject := sb; step := stp;
          globalIndex := gIndex;
          isSubjectStart := Nat.eqb stepIdx 0;
          isLevelStart := Nat.eqb sIdx 0 && Nat.eqb stepIdx 0 |} ],
   gIndex + 1).

Definition eachSubject (lv : Level)
    (acc : list Entry * Z) (sb : nat * Subject) : list Entry * Z :=
  let '(sIdx, sbj) := sb in
  fold_left (eachStep lv sbj sIdx) (imap pair (steps sbj)) acc.

Definition eachLevel (acc : list Entry * Z) (lv : Level) : list Entry * Z :=
  fold_left (eachSubject lv) (imap pair (subjects lv)) acc.

Definition flatten (curriculum : list Level) : list Entry :=
  fst (fold_left eachLevel curriculum ([], 0)).

Definition allSteps : list Entry := flatten Constants.CURRICULUM.

(** The template literal [`${subjectId}-${stepId}`]. *)
Definition compositeId (subjectId stepId : JS.str) : JS.str :=
  subjectId ++ JS.lit "-" ++ stepId.

Definition isCompleted (user : UserProfile) (subjectId stepId : JS.str) : bool :=
  JS.includes (completedSteps user) (compositeId subjectId stepId).

(** [allSteps[i]]: [undefined] outside the array. *)
Definition at_index {A} (a : list A) (i : Z) : option A :=
  if i <? 0 then None else a !! Z.to_nat i.

(** [isUnlocked(index)]; [None] is the TypeError raised when
    [allSteps[index - 1]] is [undefined] and [.subject] is read from it. *)
Definition isUnlocked (user : UserProfile) (index : Z) : option bool :=
  if index =? 0 then Some true
  else
    match at_index allSteps (index - 1) with
    | Some prevStepObj =>
        Some (isCompleted user (subject_id (subject prevStepObj))
                               (step_id (step prevStepObj)))
    | None => None
    end.

End LessonMap.

(* ===================================================================== *)
(** ** App.tsx *)
(* ===================================================================== *)

Module App.
Import Types.

Record ActiveSession := {
  level : Level;
  subject : Subject;
  step : Step;
}.

(** The two pieces of component state [handleSessionComplete] reads and
    writes; [None] is [null]. *)
Record State := {
  userProfile : option UserProfile;
  activeSession : option ActiveSession;
}.

Definition handleSessionComplete (st : State) : State :=
  match userProfile st, activeSession st with
  | Some up, Some act =>
      let stepCompositeId :=
        subject_id (subject act) ++ JS.lit "-" ++ step_id (step act) in
      let newCompletedSteps := completedSteps up in
      let newCompletedSteps :=
        if negb (JS.includes newCompletedSteps stepCompositeId)
        then newCompletedSteps ++ [stepCompositeId]
        else newCompletedSteps in
      let newCompletedSubjects := completedSubjects up in
      let newCompletedSubjects :=
        if order (step act) =? 6 then
          if negb (JS.includes newCompletedSubjects (subject_id (subject act)))
          then newCompletedSubjects ++ [subject_id (subject act)]
          else newCompletedSubjects
        else newCompletedSubjects in
      {| userProfile :=
           Some {| name := name up;
                   completedSteps := newCompletedSteps;
                   completedSubjects := newCompletedSubjects |};
         activeSession := None |}
  | _, _ => st
  end.

End App.

(* ===================================================================== *)
(** ** components/LiveSession.tsx *)
(* ===================================================================== *)

Module LiveSession.
Import Types.

(** *** [cleanText] *)

(** ['🧠 thought']: U+1F9E0 is the surrogate pair D83E DDE0. *)
Definition thought_marker : JS.str :=
  [55358%N; 56800%N] ++ JS.lit " thought".

Definition ctrl95 : JS.str := JS.lit "<ctrl95>".

Definition cleanText (text : JS.str) : JS.str :=
  if JS.startsWith text thought_marker then
    let split := JS.split text ctrl95 in
    if (1 <? length split)%nat
    then JS.trim (JS.join (JS.slice1 split) ctrl95)
    else []
  else text.

(** *** Inbound messages *)

(** [msg.serverContent]; an absent optional field is [None] or [false].
    [inlineData] is [modelTurn?.parts?.[0]?.inlineData?.data], the
    base64 text of an audio chunk. *)
Record ServerContent := {
  inlineData : option JS.str;
  interrupted : bool;
  inputTranscription : option JS.str;
  outputTranscription : option JS.str;
  turnComplete : bool;
}.

Record LiveServerMessage := { serverContent : option ServerContent }.

(** *** Outbound audio *)

(** What a blob is made from: the samples of a captured frame (the
    [frame]-th [inputBuffer.getChannelData(0)]) or the random noise
    burst of [triggerModel]. [createAudioBlob] (utils/audioUtils) is
    kept as a constructor. *)
Variant Samples := Microphone (frame : nat) | Noise (len : Z).
Variant Blob := createAudioBlob (data : Samples) (sampleRate : Z).

(** *** Playback *)

(** One call [source.start(when)]: the node, the [ctx.currentTime] read
    just before, the start time passed, and [buffer.duration]. *)
Record Scheduled := {
  node : nat;
  clock : float;
  when : float;
  duration : float;
}.

(** *** Capture *)

(** The two functions the component assigns to
    [processor.onaudioprocess]: the one of [onopen], which closes over
    the [isMicOn] of the render that ran the session effect, and the
    one of the mount-time effect, which reads [isMicOnRef.current]. *)
Variant Handler := CaptureClosure (isMicOn : bool) | CaptureRef.

(** *** The component instance *)

Record Session := {
  (* useState *)
  connectionState : ConnectionState;
  isMicOn : bool;
  isThinking : bool;
  messages : list ChatMessage;
  needsInteraction : bool;
  turnCount : nat;
  (* useRef *)
  nextStartTimeRef : float;
  sourcesRef : gset nat;
  scriptProcessorRef : option Handler;
  isMicOnRef : bool;
  (* variables of the session effect's closure: the [isMicOn] of the
   render that ran the effect, and its local [cleanup] flag *)
  effect_isMicOn : bool;
  cleanup : bool;
  (* the platform: the deadline in ms of the watchdog's pending
   [setTimeout], the blobs passed to [session.sendRealtimeInput], the
   [source.start] calls, the nodes [stop] was called on *)
  timer : option Z;
  sent : list Blob;
  started : list Scheduled;
  stopped : gset nat;
}.

(** Field updates. *)
Definition setConnectionState (v : ConnectionState) (s : Session) : Session :=
  {| connectionState := v;
     isMicOn := isMicOn s;
     isThinking := isThinking s;
     messages := messages s;
     needsInteraction := needsInteraction s;
     turnCount := turnCount s;
     nextStartTimeRef := nextStartTimeRef s;
     sourcesRef := sourcesRef s;
     scriptProcessorRef := scriptProcessorRef s;
     isMicOnRef := isMicOnRef s;
     effect_isMicOn := effect_isMicOn s;
     cleanup := cleanup s;
     timer := timer s;
     sent := sent s;
     started := started s;
     stopped := stopped s; |}.
Definition setIsMicOn (v : bool) (s : Session) : Session :=
  {| connectionState := connectionState s;
     isMicOn := v;
     isThinking := isThinking s;
     messages := messages s;
     needsInteraction := needsInteraction s;
     turnCount := turnCount s;
     nextStartTimeRef := nextStartTimeRef s;
     sourcesRef := sourcesRef s;
     scriptProcessorRef := scriptProcessorRef s;
     isMicOnRef := isMicOnRef s;
     effect_isMicOn := effect_isMicOn s;
     cleanup := cleanup s;
     timer := timer s;
     sent := sent s;
     started := started s;
     stopped := stopped s; |}.
Definition setIsThinking (v : bool) (s : Session) : Session :=
  {| connectionState := connectionState s;
     isMicOn := isMicOn s;
     isThinking := v;
     messages := messages s;
     needsInteraction := needsInteraction s;
     turnCount := turnCount s;
     nextStartTimeRef := nextStartTimeRef s;
     sourcesRef := sourcesRef s;
     scriptProcessorRef := scriptProcessorRef s;
     isMicOnRef := isMicOnRef s;
     effect_isMicOn := effect_isMicOn s;
     cleanup := cleanup s;
     timer := timer s;
     sent := sent s;
     started := started s;
     stopped := stopped s; |}.
Definition put_messages (v : list ChatMessage) (s : Session) : Session :=
  {| connectionState := connectionState s;
     isMicOn := isMicOn s;
     isThinking := isThinking s;
     messages := v;
     needsInteraction := needsInteraction s;
     turnCount := turnCount s;
     nextStartTimeRef := nextStartTimeRef s;
     sourcesRef := sourcesRef s;
     scriptProcessorRef := scriptProcessorRef s;
     isMicOnRef := isMicOnRef s;
     effect_isMicOn := effect_isMicOn s;
     cleanup := cleanup s;
     timer := timer s;
     sent := sent s;
     started := started s;
     stopped := stopped s; |}.
Definition setNeedsInteraction (v : bool) (s : Session) : Session :=
  {| connectionState := connectionState s;
     isMicOn := isMicOn s;
     isThinking := isThinking s;
     messages := messages s;
     needsInteraction := v;
     turnCount := turnCount s;
     nextStartTimeRef := nextStartTimeRef s;
     sourcesRef := sourcesRef s;
     scriptProcessorRef := scriptProcessorRef s;
     isMicOnRef := isMicOnRef s;
     effect_isMicOn := effect_isMicOn s;
     cleanup := cleanup s;
     timer := timer s;
     sent := sent s;
     started := started s;
     stopped := stopped s; |}.
Definition put_turnCount (v : nat) (s : Session) : Session :=
  {| connectionState := connectionState s;
     isMicOn := isMicOn s;
     isThinking := isThinking s;
     messages := messages s;
     needsInteraction := needsInteraction s;
     turnCount := v;
     nextStartTimeRef := nextStartTimeRef s;
     sourcesRef := sourcesRef s;
     scriptProcessorRef := scriptProcessorRef s;
     isMicOnRef := isMicOnRef s;
     effect_isMicOn := effect_isMicOn s;
     cleanup := cleanup s;
     timer := timer s;
     sent := sent s;
     started := started s;
     stopped := stopped s; |}.
Definition set_nextStartTimeRef (v : float) (s : Session) : Session :=
  {| connectionState := connectionState s;
     isMicOn := isMicOn s;
     isThinking := isThinking s;
     messages := messages s;
     needsInteraction := needsInteraction s;
     turnCount := turnCount s;
     nextStartTimeRef := v;
     sourcesRef := sourcesRef s;
     scriptProcessorRef := scriptProcessorRef s;
     isMicOnRef := isMicOnRef s;
     effect_isMicOn := effect_isMicOn s;
     cleanup := cleanup s;
     timer := timer s;
     sent := sent s;
     started := started s;
     stopped := stopped s; |}.
Definition set_sourcesRef (v : gset nat) (s : Session) : Session :=
  {| connectionState := connectionState s;
     isMicOn := isMicOn s;
     isThinking := isThinking s;
     messages := messages s;
     needsInteraction := needsInteraction s;
     turnCount := turnCount s;
     nextStartTimeRef := nextStartTimeRef s;
     sourcesRef := v;
     scriptProcessorRef := scriptProcessorRef s;
     isMicOnRef := isMicOnRef s;
     effect_isMicOn := effect_isMicOn s;
     cleanup := cleanup s;
     timer := timer s;
     sent := sent s;
     started := started s;
     stopped := stopped s; |}.
Definition set_scriptProcessorRef (v : option Handler) (s : Session) : Session :=
  {| connectionState := connectionState s;
     isMicOn := isMicOn s;
     isThinking := isThinking s;
     messages := messages s;
     needsInteraction := needsInteraction s;
     turnCount := turnCount s;
     nextStartTimeRef := nextStartTimeRef s;
     sourcesRef := sourcesRef s;
     scriptProcessorRef := v;
     isMicOnRef := isMicOnRef s;
     effect_isMicOn := effect_isMicOn s;
     cleanup := cleanup s;
     timer := timer s;
     sent := sent s;
     started := started s;
     stopped := stopped s; |}.
Definition set_isMicOnRef (v : bool) (s : Session) : Session :=
  {| connectionState := connectionState s;
     isMicOn := isMicOn s;
     isThinking := isThinking s;
     messages := messages s;
     needsInteraction := needsInteraction s;
     turnCount := turnCount s;
     nextStartTimeRef := nextStartTimeRef s;
     sourcesRef := sourcesRef s;
     scriptProcessorRef := scriptProcessorRef s;
     isMicOnRef := v;
     effect_isMicOn := effect_isMicOn s;
     cleanup := cleanup s;
     timer := timer s;
     sent := sent s;
     started := started s;
     stopped := stopped s; |}.
Definition set_effect_isMicOn (v : bool) (s : Session) : Session :=
  {| connectionState := connectionState s;
     isMicOn := isMicOn s;
     isThinking := isThinking s;
     messages := messages s;
     needsInteraction := needsInteraction s;
     turnCount := turnCount s;
     nextStartTimeRef := nextStartTimeRef s;
     sourcesRef := sourcesRef s;
     scriptProcessorRef := scriptProcessorRef s;
     isMicOnRef := isMicOnRef s;
     effect_isMicOn := v;
     cleanup := cleanup s;
     timer := timer s;
     sent := sent s;
     started := started s;
     stopped := stopped s; |}.
Definition set_cleanup (v : bool) (s : Session) : Session :=
  {| connectionState := connectionState s;
     isMicOn := isMicOn s;
     isThinking := isThinking s;
     messages := messages s;
     needsInteraction := needsInteraction s;
     turnCount := turnCount s;
     nextStartTimeRef := nextStartTimeRef s;
     sourcesRef := sourcesRef s;
     scriptProcessorRef := scriptProcessorRef s;
     isMicOnRef := isMicOnRef s;
     effect_isMicOn := effect_isMicOn s;
     cleanup := v;
     timer := timer s;
     sent := sent s;
     started := started s;
     stopped := stopped s; |}.
Definition set_timer (v : option Z) (s : Session) : Session :=
  {| connectionState := connectionState s;
     isMicOn := isMicOn s;
     isThinking := isThinking s;
     messages := messages s;
     needsInteraction := needsInteraction s;
     turnCount := turnCount s;
     nextStartTimeRef := nextStartTimeRef s;
     sourcesRef := sourcesRef s;
     scriptProcessorRef := scriptProcessorRef s;
     isMicOnRef := isMicOnRef s;
     effect_isMicOn := effect_isMicOn s;
     cleanup := cleanup s;
     timer := v;
     sent := sent s;
     started := started s;
     stopped := stopped s; |}.
Definition set_sent (v : list Blob) (s : Session) : Session :=
  {| connectionState := connectionState s;
     isMicOn := isMicOn s;
     isThinking := isThinking s;
     messages := messages s;
     needsInteraction := needsInteraction s;
     turnCount := turnCount s;
     nextStartTimeRef := nextStartTimeRef s;
     sourcesRef := sourcesRef s;
     scriptProcessorRef := scriptProcessorRef s;
     isMicOnRef := isMicOnRef s;
     effect_isMicOn := effect_isMicOn s;
     cleanup := cleanup s;
     timer := timer s;
     sent := v;
     started := started s;
     stopped := stopped s; |}.
Definition set_started (v : list Scheduled) (s : Session) : Session :=
  {| connectionState := connectionState s;
     isMicOn := isMicOn s;
     isThinking := isThinking s;
     messages := messages s;
     needsInteraction := needsInteraction s;
     turnCount := turnCount s;
     nextStartTimeRef := nextStartTimeRef s;
     sourcesRef := sourcesRef s;
     scriptProcessorRef := scriptProcessorRef s;
     isMicOnRef := isMicOnRef s;
     effect_isMicOn := effect_isMicOn s;
     cleanup := cleanup s;
     timer := timer s;
     sent := sent s;
     started := v;
     stopped := stopped s; |}.
Definition set_stopped (v : gset nat) (s : Session) : Session :=
  {| connectionState := connectionState s;
     isMicOn := isMicOn s;
     isThinking := isThinking s;
     messages := messages s;
     needsInteraction := needsInteraction s;
     turnCount := turnCount s;
     nextStartTimeRef := nextStartTimeRef s;
     sourcesRef := sourcesRef s;
     scriptProcessorRef := scriptProcessorRef s;
     isMicOnRef := isMicOnRef s;
     effect_isMicOn := effect_isMicOn s;
     cleanup := cleanup s;
     timer := timer s;
     sent := sent s;
     started := started s;
     stopped := v; |}.

Definition sendRealtimeInput (media : Blob) (s : Session) : Session :=
  set_sent (sent s ++ [media]) s.

(** [useState] initial values and [useRef] initial values, as the first
    render leaves them. *)
Definition firstRender : Session :=
  {| connectionState := CONNECTING;
     isMicOn := true;
     isThinking := false;
     messages := [];
     needsInteraction := false;
     turnCount := 0%nat;
     nextStartTimeRef := 0%float;
     sourcesRef := ∅;
     scriptProcessorRef := None;
     isMicOnRef := true;
     effect_isMicOn := true;
     cleanup := false;
     timer := None;
     sent := [];
     started := [];
     stopped := ∅ |}.

(** [triggerModel(session)] *)
Definition triggerModel (s : Session) : Session :=
  let duration := Constants.AUDIO_SAMPLE_RATE_INPUT / 5 in
  let blob := createAudioBlob (Noise duration) Constants.AUDIO_SAMPLE_RATE_INPUT in
  setIsThinking true (sendRealtimeInput blob s).

(** *** The effects run after the first render, in source order *)

(** The session effect: [startSession] up to [ai.live.connect]; the
    callbacks it passes close over this render's [isMicOn].
    [suspended] is [outputContextRef.current.state === 'suspended']. *)
Definition startSession (suspended : bool) (s : Session) : Session :=
  let s := set_cleanup false (set_effect_isMicOn (isMicOn s) s) in
  let s := setConnectionState CONNECTING s in
  if suspended then setNeedsInteraction true s else s.

(** [useEffect(() => { isMicOnRef.current = isMicOn; }, [isMicOn])] *)
Definition syncMicRef (s : Session) : Session :=
  set_isMicOnRef (isMicOn s) s.

(** [useEffect(() => { if (scriptProcessorRef.current) {...} }, [])] *)
Definition installRefHandler (s : Session) : Session :=
  match scriptProcessorRef s with
  | Some _ => set_scriptProcessorRef (Some CaptureRef) s
  | None => s
  end.

(** Mounting: the watchdog effect returns at once ([isThinking] is
    false), then the session effect, the ref-sync effect and the
    effect with the empty dependency array. *)
Definition mount (suspended : bool) : Session :=
  installRefHandler (syncMicRef (startSession suspended firstRender)).

(** *** Callbacks of the connection *)

(** [onopen]; [resumed] is false when a [resume()] is rejected,
    [micGranted] is false when [getUserMedia] is rejected. The 500 ms
    timeout that calls [triggerModel] is the event [Wake] below. *)
Definition onopen (resumed micGranted : bool) (s : Session) : Session :=
  if cleanup s then s else
  let s := if resumed then s else setNeedsInteraction true s in
  let s := setConnectionState CONNECTED s in
  if micGranted
  then set_scriptProcessorRef (Some (CaptureClosure (effect_isMicOn s))) s
  else setConnectionState ERROR s.

(** [processor.onaudioprocess(e)] for the installed handler [h]. *)
Definition onaudioprocess (h : Handler) (frame : nat) (s : Session) : Session :=
  let gate :=
    match h with
    | CaptureClosure isMicOn => isMicOn
    | CaptureRef => isMicOnRef s
    end in
  if negb gate then s
  else sendRealtimeInput
         (createAudioBlob (Microphone frame) Constants.AUDIO_SAMPLE_RATE_INPUT) s.

(** Lines 194-205: schedule the decoded buffer. The new node is
    numbered by the count of nodes created before it. *)
Definition enqueue (currentTime duration : float) (s : Session) : Session :=
  let source := length (started s) in
  let s := if PrimFloat.ltb (nextStartTimeRef s) currentTime
           then set_nextStartTimeRef currentTime s else s in
  let s := set_started
             (started s ++ [ {| node := source; clock := currentTime;
                                when := nextStartTimeRef s;
                                duration := duration |} ]) s in
  let s := set_nextStartTimeRef (PrimFloat.add (nextStartTimeRef s) duration) s in
  set_sourcesRef ({[ source ]} ∪ sourcesRef s) s.

(** Lines 208-213. *)
Definition flush (s : Session) : Session :=
  let s := set_stopped (stopped s ∪ sourcesRef s) s in
  let s := set_sourcesRef ∅ s in
  let s := set_nextStartTimeRef 0%float s in
  setIsThinking false s.

(** [source.onended] *)
Definition onended (source : nat) (s : Session) : Session :=
  set_sourcesRef (sourcesRef s ∖ {[ source ]}) s.

(** [newMsgs[newMsgs.length - 1]] *)
Definition lastIndex (newMsgs : list ChatMessage) : nat :=
  (length newMsgs - 1)%nat.

Definition appendText (fragment : JS.str) (m : ChatMessage) : ChatMessage :=
  {| id := id m; role := role m; text := text m ++ fragment;
     isPartial := isPartial m |}.

Definition appendCleaned (fragment : JS.str) (m : ChatMessage) : ChatMessage :=
  {| id := id m; role := role m; text := cleanText (text m ++ fragment);
     isPartial := isPartial m |}.

Definition finalize (m : ChatMessage) : ChatMessage :=
  {| id := id m; role := role m; text := text m; isPartial := false |}.

(** The three blocks of the [setMessages] updater; [now] is
    [Date.now()]. *)
Definition pushInput (now : Z) (inputTrans : option JS.str)
    (newMsgs : list ChatMessage) : list ChatMessage :=
  match inputTrans with
  | Some (c :: f) =>
      let inputTrans := c :: f in
      match newMsgs !! lastIndex newMsgs with
      | Some lastMsg =>
          if Role_eqb (role lastMsg) user && isPartial lastMsg
          then alter (appendText inputTrans) (lastIndex newMsgs) newMsgs
          else newMsgs ++ [ {| id := JS.toString now; role := user;
                               text := inputTrans; isPartial := true |} ]
      | None =>
          newMsgs ++ [ {| id := JS.toString now; role := user;
                          text := inputTrans; isPartial := true |} ]
      end
  | _ => newMsgs
  end.

Definition pushOutput (now : Z) (outputTrans : option JS.str)
    (newMsgs : list ChatMessage) : list ChatMessage :=
  match outputTrans with
  | Some (c :: f) =>
      let outputTrans := c :: f in
      match newMsgs !! lastIndex newMsgs with
      | Some lastMsg =>
          if Role_eqb (role lastMsg) model && isPartial lastMsg
          then alter (appendCleaned outputTrans) (lastIndex newMsgs) newMsgs
          else newMsgs ++ [ {| id := JS.toString now; role := model;
                               text := cleanText outputTrans;
                               isPartial := true |} ]
      | None =>
          newMsgs ++ [ {| id := JS.toString now; role := model;
                          text := cleanText outputTrans;
                          isPartial := true |} ]
      end
  | _ => newMsgs
  end.

Definition markComplete (turnComplete : bool)
    (newMsgs : list ChatMessage) : list ChatMessage :=
  if turnComplete then alter finalize (lastIndex newMsgs) newMsgs
  else newMsgs.

Definition updater (now : Z) (inputTrans outputTrans : option JS.str)
    (turnComplete : bool) (prev : list ChatMessage) : list ChatMessage :=
  markComplete turnComplete
    (pushOutput now outputTrans (pushInput now inputTrans prev)).

(** [onmessage(msg)]. [now] is [Date.now()], [currentTime] is
    [ctx.currentTime] and [duration] the [buffer.duration] of the
    buffer [decodeAudioData] (utils/audioUtils) returns for the chunk;
    the callback runs to its end before the next event is handled.
    [outputContextRef.current] is assigned before [connect] is called
    and never cleared, so the second conjunct of line 178 holds in
    every call. The [setIsThinking(true)] of the updater runs when
    React applies it, after the other updates of the callback. *)
Definition onmessage (now : Z) (currentTime duration : float)
    (msg : LiveServerMessage) (s : Session) : Session :=
  if cleanup s then s else
  let audioData := serverContent msg ≫= inlineData in
  let s := if JS.truthy audioData
           then enqueue currentTime duration (setIsThinking false s)
           else s in
  let s := if from_option interrupted false (serverContent msg)
           then flush s else s in
  let inputTrans := serverContent msg ≫= inputTranscription in
  let outputTrans := serverContent msg ≫= outputTranscription in
  let turnComplete := from_option turnComplete false (serverContent msg) in
  let s := if turnComplete
           then put_turnCount (turnCount s + 1)%nat (setIsThinking false s)
           else s in
  if JS.truthy inputTrans || JS.truthy outputTrans then
    let s := put_messages
               (updater now inputTrans outputTrans turnComplete (messages s)) s in
    if JS.truthy inputTrans then setIsThinking true s else s
  else s.

Definition onclose (s : Session) : Session :=
  if cleanup s then s
  else setIsThinking false (setConnectionState DISCONNECTED s).

Definition onerror (s : Session) : Session :=
  setIsThinking false (setConnectionState ERROR s).

(** The cleanup of the session effect. *)
Definition unmount (s : Session) : Session :=
  let s := set_cleanup true s in
  set_stopped (stopped s ∪ sourcesRef s) s.

(** *** User actions *)

(** The mic button's [onClick]. *)
Definition toggleMic (s : Session) : Session :=
  setIsMicOn (negb (isMicOn s)) s.

Definition handleStartInteraction (s : Session) : Session :=
  triggerModel (setNeedsInteraction false s).

(** Line 323. *)
Definition canComplete (turnCount : nat) : bool := (3 <=? turnCount)%nat.

(** The "Complete Lesson" button: its [onClick] and [disabled]. *)
Variant Callback := onComplete | onDisconnect.

Record Button := {
  onClick : option Callback;
  disabled : bool;
}.

Definition completeButton (s : Session) : Button :=
  {| onClick := if canComplete (turnCount s) then Some onComplete else None;
     disabled := negb (canComplete (turnCount s)) |}.

(** *** Events and the React commit *)

(** What can happen to a mounted component. [Wake] is the 500 ms
    timeout of [onopen]. The session promise is resolved when any of
    them occurs, so a [sessionPromiseRef.current?.then(f)] runs [f]. *)
Variant Event :=
| Open (resumed micGranted : bool)
| Wake
| Message (currentTime duration : float) (msg : LiveServerMessage)
| Ended (source : nat)
| AudioProcess (frame : nat)
| ToggleMic
| StartInteraction
| Close
| Error
| Unmount.

Definition handle (now : Z) (ev : Event) (s : Session) : Session :=
  match ev with
  | Open resumed micGranted => onopen resumed micGranted s
  | Wake => triggerModel s
  | Message currentTime duration msg => onmessage now currentTime duration msg s
  | Ended source => onended source s
  | AudioProcess frame =>
      match scriptProcessorRef s with
      | Some h => onaudioprocess h frame s
      | None => s
      end
  | ToggleMic => toggleMic s
  | StartInteraction => handleStartInteraction s
  | Close => onclose s
  | Error => onerror s
  | Unmount => unmount s
  end.

(** The watchdog effect, [useEffect(..., [isThinking])]: it runs again
    only when [isThinking] differs from the previous render; its
    cleanup clears the pending timeout, its body sets a 4000 ms one
    when [isThinking] is true. Unmounting runs the cleanup alone. *)
Definition watchdogEffect (now : Z) (before after : Session) : Session :=
  if cleanup after then set_timer None after
  else if Bool.eqb (isThinking before) (isThinking after) then after
  else if isThinking after then set_timer (Some (now + 4000)) after
  else set_timer None after.

(** The commit that follows a callback: state updates of one callback
    are applied together, then the effects whose dependencies changed
    run. *)
Definition commit (now : Z) (before after : Session) : Session :=
  watchdogEffect now before (syncMicRef after).

Definition step (now : Z) (ev : Event) (s : Session) : Session :=
  commit now s (handle now ev s).

(** The timeout callback of the watchdog, run at its deadline. *)
Definition fire (deadline : Z) (s : Session) : Session :=
  commit deadline s (triggerModel (set_timer None s)).

(** Let time pass until [now]: every watchdog timeout due by then
    fires; [budget] bounds the number of firings. *)
Fixpoint elapse_within (budget : nat) (now : Z) (s : Session) : Session :=
  match budget with
  | O => s
  | S budget' =>
      match timer s with
      | Some deadline =>
          if deadline <=? now
          then elapse_within budget' now (fire deadline s)
          else s
      | None => s
      end
  end.

(** A timer set by a firing is due 4000 ms after it, so at most
    [(now - deadline) / 4000 + 1] firings fit. *)
Definition elapse (now : Z) (s : Session) : Session :=
  match timer s with
  | Some deadline =>
      elapse_within (Z.to_nat ((now - deadline) / 4000 + 1)) now s
  | None => s
  end.

(** A timed trace of events. *)
Fixpoint run (trace : list (Z * Event)) (s : Session) : Session :=
  match trace with
  | [] => s
  | (now, ev) :: rest => run rest (step now ev (elapse now s))
  end.

(** The wake stimuli among the blobs sent. *)
Definition isWake (b : Blob) : bool :=
  match b with
  | createAudioBlob (Noise _) _ => true
  | createAudioBlob (Microphone _) _ => false
  end.

Definition wakes (s : Session) : nat := length (filter isWake (sent s)).

End LiveSession.

(* ===================================================================== *)
(** ** Inbound messages, traces and relations used in the statements *)
(* ===================================================================== *)

Module Scenario.
Import Types LiveSession.

Definition silent : ServerContent :=
  {| inlineData := None; interrupted := false;
     inputTranscription := None; outputTranscription := None;
     turnComplete := false |}.

(** [{serverContent: {inputTranscription: {text: f}}}] *)
Definition userSays (f : JS.str) : LiveServerMessage :=
  {| serverContent :=
       Some {| inlineData := None; interrupted := false;
               inputTranscription := Some f; outputTranscription := None;
               turnComplete := false |} |}.

(** [{serverContent: {outputTranscription: {text: f}}}] *)
Definition modelSays (f : JS.str) : LiveServerMessage :=
  {| serverContent :=
       Some {| inlineData := None; interrupted := false;
               inputTranscription := None; outputTranscription := Some f;
               turnComplete := false |} |}.

(** [{serverContent: {turnComplete: true}}] *)
Definition turnCompleteOnly : LiveServerMessage :=
  {| serverContent :=
       Some {| inlineData := None; interrupted := false;
               inputTranscription := None; outputTranscription := None;
               turnComplete := true |} |}.

(** [{serverContent: {modelTurn: {parts: [{inlineData: {data}}]}}}] *)
Definition audioChunk (data : JS.str) : LiveServerMessage :=
  {| serverContent :=
       Some {| inlineData := Some data; interrupted := false;
               inputTranscription := None; outputTranscription := None;
               turnComplete := false |} |}.

(** [{serverContent: {interrupted: true}}] *)
Definition interruptedOnly : LiveServerMessage :=
  {| serverContent :=
       Some {| inlineData := None; interrupted := true;
               inputTranscription := None; outputTranscription := None;
               turnComplete := false |} |}.

(** A session that has connected and sent its first wake stimulus:
    mounted at 0 ms, opened with the microphone granted, woken at
    500 ms. *)
Definition connected : Session :=
  run [(0, Open true true); (500, Wake)] (mount false).

(** The fragments [fs], each in a message of its own at its time. *)
Definition utter (say : JS.str → LiveServerMessage)
    (fs : list (Z * JS.str)) : list (Z * Event) :=
  map (λ p, (p.1, Message 0%float 0%float (say p.2))) fs.

Definition isTurnComplete (ev : Event) : bool :=
  match ev with
  | Message _ _ msg => from_option turnComplete false (serverContent msg)
  | _ => false
  end.

Definition isInterrupted (ev : Event) : bool :=
  match ev with
  | Message _ _ msg => from_option interrupted false (serverContent msg)
  | _ => false
  end.

Definition isUnmount (ev : Event) : bool :=
  match ev with
  | Unmount => true
  | _ => false
  end.

(** Turn-complete signals of a trace. *)
Definition turnCompletes (trace : list (Z * Event)) : nat :=
  length (filter (λ p, isTurnComplete p.2 = true) trace).

(** No event of the trace tears the session down. *)
Definition mounted (trace : list (Z * Event)) : Prop :=
  Forall (λ p, isUnmount p.2 = false) trace.

(** No inbound message of the trace is an interruption. *)
Definition uninterrupted (trace : list (Z * Event)) : Prop :=
  Forall (λ p, isInterrupted p.2 = false) trace.

(** [next] keeps the messages of [prev] that are not its last one or
    are finalized, each at its index, and is no shorter. *)
Definition keeps (prev next : list ChatMessage) : Prop :=
  (length prev ≤ length next)%nat ∧
  ∀ i m, prev !! i = Some m →
         ((S i < length prev)%nat ∨ isPartial m = false) →
         next !! i = Some m.

(** A reading of [AudioContext.currentTime]: zero or a positive
    number. *)
Definition clockReading (t : float) : Prop :=
  t = 0%float ∨ PrimFloat.ltb 0%float t = true.

(** Where a buffer starts when the cursor is at [cursor] and the
    clock reads [currentTime]. *)
Definition startAt (cursor currentTime : float) : float :=
  if PrimFloat.ltb cursor currentTime then currentTime else cursor.

(** Each entry of a log starts where [startAt] puts it, the cursor
    being the previous entry's start plus its duration. *)
Fixpoint chained (cursor : float) (log : list Scheduled) : Prop :=
  match log with
  | [] => True
  | e :: rest =>
      when e = startAt cursor (clock e) ∧
      chained (PrimFloat.add (when e) (duration e)) rest
  end.

Definition cursorAfter (cursor : float) (log : list Scheduled) : float :=
  fold_left (λ _ e, PrimFloat.add (when e) (duration e)) log cursor.

Definition withText (t : JS.str) (m : ChatMessage) : ChatMessage :=
  {| id := id m; role := role m; text := t; isPartial := isPartial m |}.

(** The entry [enqueue] logs in state [s] for a buffer of duration [d]
    when the clock reads [ct]. *)
Definition scheduled (ct d : float) (s : Session) : Scheduled :=
  {| node := length (started s); clock := ct;
     when := startAt (nextStartTimeRef s) ct; duration := d |}.

(** The audio chunk of an event, as the clock reading and the decoded
    duration that come with it. *)
Definition bufferOf (ev : Event) : option (float * float) :=
  match ev with
  | Message ct d msg =>
      if JS.truthy (serverContent msg ≫= inlineData) then Some (ct, d)
      else None
  | _ => None
  end.

Definition buffers (trace : list (Z * Event)) : list (float * float) :=
  omap (λ p, bufferOf p.2) trace.

(** What holds of the capture handler from mount on: the session
    effect ran in a render where [isMicOn] was true, and the
    processor, once created, carries the handler of [onopen]. *)
Definition captureFixed (s : Session) : Prop :=
  effect_isMicOn s = true ∧
  (scriptProcessorRef s = None ∨
   scriptProcessorRef s = Some (CaptureClosure true)).

(** Three turns, each closed by a turn-complete signal. *)
Definition threeTurns : list (Z * Event) :=
  [ (0, Open true true); (500, Wake);
    (1000, Message 0%float 0%float turnCompleteOnly);
    (2000, Message 0%float 0%float turnCompleteOnly);
    (3000, Message 0%float 0%float turnCompleteOnly) ].

(** Three chunks of one second each, received while the first still
    plays. *)
Definition threePlaying : Session :=
  run [ (1000, Message 1%float 1%float (audioChunk (JS.lit "AAAA")));
        (1250, Message 1.25%float 1%float (audioChunk (JS.lit "AAAA")));
        (1500, Message 1.5%float 1%float (audioChunk (JS.lit "AAAA"))) ]
      connected.

(** Two chunks of two seconds, the second received while the first
    plays. *)
Definition twoChunks : list (Z * Event) :=
  [ (1000, Message 1%float 2%float (audioChunk (JS.lit "AAAA")));
    (1500, Message 1.5%float 2%float (audioChunk (JS.lit "AAAA"))) ].

(** Two chunks of two seconds, the second received seven seconds
    after the first has ended. *)
Definition idleGap : list (Z * Event) :=
  [ (1000, Message 1%float 2%float (audioChunk (JS.lit "AAAA")));
    (10000, Message 10%float 2%float (audioChunk (JS.lit "AAAA"))) ].

(** The blob [triggerModel] sends. *)
Definition wakeStimulus : Blob :=
  createAudioBlob (Noise (Constants.AUDIO_SAMPLE_RATE_INPUT / 5))
                  Constants.AUDIO_SAMPLE_RATE_INPUT.

(** The user's greeting "Olá, tudo bem?" in three fragments (U+00E1
    is the code unit 225), and the session that has received the
    first. *)
Definition greeting : list (Z * JS.str) :=
  [ (1000, JS.lit "Ol"); (1100, 225%N :: JS.lit ", ");
    (1200, JS.lit "tudo bem?") ].

Definition greetingBegun : Session :=
  run (utter userSays (take 1 greeting)) connected.

(** The model's answer in fragments, and the session that has
    received the first. *)
Definition answer : list (Z * JS.str) :=
  [ (2000, JS.lit "Bom"); (2100, JS.lit " dia") ].

Definition answerBegun : Session :=
  run (utter modelSays (take 1 answer)) connected.

(** The user has muted the microphone at 1000 ms. *)
Definition muted : Session := run [(1000, ToggleMic)] connected.

(** A model transcript that opens with the thought marker, whole and
    cut before the delimiter. *)
Definition thoughtWhole : list (Z * JS.str) :=
  [ (1000, thought_marker ++ JS.lit ": greet the user<ctrl95>Bom dia") ].

Definition thoughtSplit : list (Z * JS.str) :=
  [ (1000, thought_marker ++ JS.lit ": greet");
    (1100, JS.lit " the user<ctrl95>Bom dia") ].

(** A field the commit, the timer bookkeeping and the watchdog's
    callback do not write. *)
Definition untouched {A} (f : Session → A) : Prop :=
  (∀ now before after, f (commit now before after) = f after) ∧
  (∀ deadline s, f (fire deadline s) = f s).

End Scenario.

(** Users and sessions of the progress examples. *)
Module Progress.
Import Types App.

(** A user who has completed the first step of the first subject. *)
Definition learner : UserProfile :=
  {| name := JS.lit "Ana"; completedSubjects := [];
     completedSteps := [JS.lit "a1-intro-step-1"] |}.

(** The elements [handleSessionComplete] pushes. *)
Definition pushedSteps (up : UserProfile) (act : ActiveSession) : list JS.str :=
  if bool_decide
       (LessonMap.compositeId (subject_id (subject act)) (step_id (step act))
          ∈ completedSteps up)
  then []
  else [LessonMap.compositeId (subject_id (subject act)) (step_id (step act))].

Definition pushedSubjects (up : UserProfile) (act : ActiveSession) : list JS.str :=
  if bool_decide (order (step act) = 6 ∧
                  subject_id (subject act) ∉ completedSubjects up)
  then [subject_id (subject act)]
  else [].

(** A user with the first five steps of the first subject, in a
    session on its sixth and last step. *)
Definition graduate : UserProfile :=
  {| name := JS.lit "Ana"; completedSubjects := [];
     completedSteps :=
       map JS.lit [ "a1-intro-step-1"%string; "a1-intro-step-2"%string;
                    "a1-intro-step-3"%string; "a1-intro-step-4"%string;
                    "a1-intro-step-5"%string ] |}.

Definition lastStep : ActiveSession :=
  {| level := {| level_id := JS.lit "A1"; subjects := [] |};
     subject := Constants.subject "a1-intro";
     step := {| step_id := JS.lit "step-6"; order := 6;
                step_type := challenge |} |}.

Definition lastStepDone : State :=
  {| userProfile := Some graduate; activeSession := Some lastStep |}.

End Progress.

(* ===================================================================== *)
(** * Properties *)
(* ===================================================================== *)

Module JSFacts.

Lemma str_eqb_eq (a b : JS.str) : JS.str_eqb a b = true ↔ a = b.
Proof. unfold JS.str_eqb. apply bool_decide_eq_true. Qed.

Lemma includes_elem_of (a : list JS.str) (x : JS.str) :
  JS.includes a x = true ↔ x ∈ a.
Proof.
  unfold JS.includes. rewrite existsb_exists. split.
  - intros (y & Hy & Heq). apply str_eqb_eq in Heq. subst y.
    by apply list_elem_of_In.
  - intros Hx. exists x. split; [by apply list_elem_of_In|].
    by apply str_eqb_eq.
Qed.

Lemma includes_false (a : list JS.str) (x : JS.str) :
  JS.includes a x = false ↔ x ∉ a.
Proof.
  rewrite <- includes_elem_of. destruct (JS.includes a x); split; done.
Qed.

Lemma startsWith_app (p s : JS.str) : JS.startsWith (p ++ s) p = true.
Proof.
  induction p as [|c p IH]; simpl; [by destruct s|].
  by rewrite N.eqb_refl, IH.
Qed.

Example split_pieces :
  JS.split (JS.lit "a<ctrl95>b<ctrl95>c") (JS.lit "<ctrl95>")
    = [JS.lit "a"; JS.lit "b"; JS.lit "c"].
Proof. vm_compute. reflexivity. Qed.

Example split_without_separator :
  JS.split (JS.lit "<ctrl9 5>") (JS.lit "<ctrl95>") = [JS.lit "<ctrl9 5>"].
Proof. vm_compute. reflexivity. Qed.

Example split_empty : JS.split [] (JS.lit "<ctrl95>") = [ [] ].
Proof. vm_compute. reflexivity. Qed.

Example join_slice :
  JS.join (JS.slice1 [JS.lit "a"; JS.lit "b"; JS.lit "c"]) (JS.lit "<ctrl95>")
    = JS.lit "b<ctrl95>c".
Proof. vm_compute. reflexivity. Qed.

(** [trim] removes the no-break space U+00A0 and line ends, and keeps
    the inner spaces. *)
Example trim_both_ends :
  JS.trim ([160%N; 10%N] ++ JS.lit " Bom dia " ++ [13%N; 8232%N])
    = JS.lit "Bom dia".
Proof. vm_compute. reflexivity. Qed.

End JSFacts.

(* ===================================================================== *)
(** ** The unlock rule of the lesson map *)
(* ===================================================================== *)

Module LessonMapFacts.
Import Types LessonMap Progress.

Lemma at_index_lookup {A} (a : list A) (i : Z) :
  0 <= i → at_index a i = a !! Z.to_nat i.
Proof.
  intros Hi. unfold at_index.
  destruct (Z.ltb_spec i 0) as [Hneg|_]; [lia | reflexivity].
Qed.

Lemma isCompleted_elem_of (user : UserProfile) (subjectId stepId : JS.str) :
  isCompleted user subjectId stepId = true ↔
  compositeId subjectId stepId ∈ completedSteps user.
Proof. unfold isCompleted. apply JSFacts.includes_elem_of. Qed.

(** C10. In the lesson map the step at global index 0 is unlocked
    whatever the user has completed, and for every index [i > 0] of
    [allSteps] the call [isUnlocked(i)] returns, and returns true
    exactly when the composite id [subjectId-stepId] of the step at
    index [i - 1] is an element of the user's [completedSteps]. *)
Theorem isUnlocked_rule (user : UserProfile) :
  isUnlocked user 0 = Some true ∧
  ∀ i : Z, 0 < i → i < Z.of_nat (length allSteps) →
    ∃ prev : Entry,
      allSteps !! Z.to_nat (i - 1) = Some prev ∧
      ∃ unlocked : bool,
        isUnlocked user i = Some unlocked ∧
        (unlocked = true ↔
         compositeId (subject_id (subject prev)) (step_id (step prev))
           ∈ completedSteps user).
Proof.
  split; [reflexivity|].
  intros i Hpos Hlt.
  destruct (lookup_lt_is_Some_2 allSteps (Z.to_nat (i - 1))) as [prev Hprev];
    [lia|].
  exists prev. split; [exact Hprev|].
  exists (isCompleted user (subject_id (subject prev)) (step_id (step prev))).
  split; [|apply isCompleted_elem_of].
  unfold isUnlocked.
  destruct (Z.eqb_spec i 0) as [->|_]; [lia|].
  rewrite at_index_lookup by lia. by rewrite Hprev.
Qed.

Lemma isUnlocked_rule_witness :
  ∃ prev : Entry,
    allSteps !! Z.to_nat (1 - 1) = Some prev ∧
    ∃ unlocked : bool,
      isUnlocked learner 1 = Some unlocked ∧
      (unlocked = true ↔
       compositeId (subject_id (subject prev)) (step_id (step prev))
         ∈ completedSteps learner).
Proof.
  apply (proj2 (isUnlocked_rule learner) 1); [lia | vm_compute; reflexivity].
Defined.

(** Outside the array the call does not return: reading [.subject] of
    [undefined] raises. *)
Lemma isUnlocked_out_of_range (user : UserProfile) (i : Z) :
  i < 0 ∨ Z.of_nat (length allSteps) < i → isUnlocked user i = None.
Proof.
  intros Hout. unfold isUnlocked, at_index.
  destruct (Z.eqb_spec i 0) as [->|_]; [lia|].
  destruct (Z.ltb_spec (i - 1) 0) as [_|Hge]; [reflexivity|].
  rewrite lookup_ge_None_2; [reflexivity | lia].
Qed.

Example second_step_unlocked : isUnlocked learner 1 = Some true.
Proof. vm_compute. reflexivity. Qed.

Example third_step_locked : isUnlocked learner 2 = Some false.
Proof. vm_compute. reflexivity. Qed.

End LessonMapFacts.

(* ===================================================================== *)
(** ** Progress recorded on completing a session *)
(* ===================================================================== *)

Module AppFacts.
Import Types App Progress.

Lemma handleSessionComplete_profile (st : State) (up : UserProfile)
    (act : ActiveSession) :
  userProfile st = Some up → activeSession st = Some act →
  handleSessionComplete st =
    {| userProfile :=
         Some {| name := name up;
                 completedSteps := completedSteps up ++ pushedSteps up act;
                 completedSubjects :=
                   completedSubjects up ++ pushedSubjects up act |};
       activeSession := None |}.
Proof.
  intros Hup Hact. unfold handleSessionComplete, pushedSteps, pushedSubjects.
  rewrite Hup, Hact. unfold LessonMap.compositeId.
  set (cid := subject_id (subject act) ++ JS.lit "-" ++ step_id (step act)).
  set (sid := subject_id (subject act)).
  assert (Hsteps :
    (if negb (JS.includes (completedSteps up) cid)
     then completedSteps up ++ [cid] else completedSteps up) =
    completedSteps up ++
      (if bool_decide (cid ∈ completedSteps up) then [] else [cid])).
  { destruct (JS.includes (completedSteps up) cid) eqn:Hin; cbn [negb].
    - apply JSFacts.includes_elem_of in Hin.
      rewrite bool_decide_eq_true_2 by done. by rewrite app_nil_r.
    - apply JSFacts.includes_false in Hin.
      by rewrite bool_decide_eq_false_2. }
  assert (Hsubjects :
    (if order (step act) =? 6
     then if negb (JS.includes (completedSubjects up) sid)
          then completedSubjects up ++ [sid] else completedSubjects up
     else completedSubjects up) =
    completedSubjects up ++
      (if bool_decide (order (step act) = 6 ∧ sid ∉ completedSubjects up)
       then [sid] else [])).
  { destruct (Z.eqb_spec (order (step act)) 6) as [H6|H6].
    - destruct (JS.includes (completedSubjects up) sid) eqn:Hin; cbn [negb].
      + apply JSFacts.includes_elem_of in Hin.
        rewrite bool_decide_eq_false_2 by tauto. by rewrite app_nil_r.
      + apply JSFacts.includes_false in Hin.
        by rewrite bool_decide_eq_true_2.
    - rewrite bool_decide_eq_false_2 by tauto. by rewrite app_nil_r. }
  cbv zeta. by rewrite Hsteps, Hsubjects.
Qed.

Lemma NoDup_snoc_fresh {A} (l : list A) (x : A) :
  NoDup l → x ∉ l → NoDup (l ++ [x]).
Proof.
  intros Hl Hx. apply NoDup_app. split; [done|]. split.
  - intros y Hy Hy'. apply list_elem_of_singleton in Hy'. by subst.
  - apply NoDup_singleton.
Qed.

(** C9. Completing a session only appends to the progress lists and
    adds no duplicate: the old [completedSteps] and [completedSubjects]
    are prefixes of the new ones; the only element that can be new in
    [completedSteps] is the composite id [subjectId-stepId], and only
    when it was absent; the only element that can be new in
    [completedSubjects] is the subject's id, and only when the step's
    [order] is 6 and the id was absent; lists without duplicates stay
    without duplicates. *)
Theorem handleSessionComplete_append_only (st : State) (up : UserProfile)
    (act : ActiveSession) :
  userProfile st = Some up → activeSession st = Some act →
  ∃ up' : UserProfile,
    userProfile (handleSessionComplete st) = Some up' ∧
    completedSteps up `prefix_of` completedSteps up' ∧
    completedSubjects up `prefix_of` completedSubjects up' ∧
    (∀ x, x ∈ completedSteps up' →
          x ∈ completedSteps up ∨
          (x = LessonMap.compositeId (subject_id (subject act))
                                     (step_id (step act)) ∧
           x ∉ completedSteps up)) ∧
    (∀ x, x ∈ completedSubjects up' →
          x ∈ completedSubjects up ∨
          (x = subject_id (subject act) ∧ order (step act) = 6 ∧
           x ∉ completedSubjects up)) ∧
    (NoDup (completedSteps up) → NoDup (completedSteps up')) ∧
    (NoDup (completedSubjects up) → NoDup (completedSubjects up')).
Proof.
  intros Hup Hact.
  rewrite (handleSessionComplete_profile st up act Hup Hact).
  eexists. split; [reflexivity|]. simpl.
  unfold pushedSteps, pushedSubjects.
  repeat split.
  - by apply prefix_app_r.
  - by apply prefix_app_r.
  - intros x Hx. apply elem_of_app in Hx as [Hx|Hx]; [by left|].
    case_bool_decide as Hin; [by apply elem_of_nil in Hx|].
    apply list_elem_of_singleton in Hx. subst x. by right.
  - intros x Hx. apply elem_of_app in Hx as [Hx|Hx]; [by left|].
    case_bool_decide as Hin; [|by apply elem_of_nil in Hx].
    apply list_elem_of_singleton in Hx. subst x. right. tauto.
  - intros Hnd. case_bool_decide as Hin; [by rewrite app_nil_r|].
    by apply NoDup_snoc_fresh.
  - intros Hnd. case_bool_decide as Hin; [|by rewrite app_nil_r].
    apply NoDup_snoc_fresh; tauto.
Qed.

Lemma handleSessionComplete_append_only_witness :
  ∃ up' : UserProfile,
    userProfile (handleSessionComplete lastStepDone) = Some up' ∧
    completedSteps graduate `prefix_of` completedSteps up' ∧
    completedSubjects graduate `prefix_of` completedSubjects up' ∧
    (∀ x, x ∈ completedSteps up' →
          x ∈ completedSteps graduate ∨
          (x = LessonMap.compositeId (subject_id (subject lastStep))
                                     (step_id (step lastStep)) ∧
           x ∉ completedSteps graduate)) ∧
    (∀ x, x ∈ completedSubjects up' →
          x ∈ completedSubjects graduate ∨
          (x = subject_id (subject lastStep) ∧ order (step lastStep) = 6 ∧
           x ∉ completedSubjects graduate)) ∧
    (NoDup (completedSteps graduate) → NoDup (completedSteps up')) ∧
    (NoDup (completedSubjects graduate) → NoDup (completedSubjects up')).
Proof.
  apply (handleSessionComplete_append_only lastStepDone graduate lastStep);
    reflexivity.
Defined.

Example last_step_completes_subject :
  userProfile (handleSessionComplete lastStepDone) =
    Some {| name := JS.lit "Ana";
            completedSubjects := [JS.lit "a1-intro"];
            completedSteps :=
              completedSteps graduate ++ [JS.lit "a1-intro-step-6"] |}.
Proof. vm_compute. reflexivity. Qed.

(** Completing the same step again changes nothing. *)
Lemma handleSessionComplete_again (st : State) (up : UserProfile)
    (act : ActiveSession) :
  userProfile st = Some up → activeSession st = Some act →
  ∀ up', userProfile (handleSessionComplete st) = Some up' →
  pushedSteps up' act = [] ∧ pushedSubjects up' act = [].
Proof.
  intros Hup Hact up' Hup'.
  rewrite (handleSessionComplete_profile st up act Hup Hact) in Hup'.
  simpl in Hup'. injection Hup' as <-. unfold pushedSteps, pushedSubjects.
  simpl. split.
  - rewrite bool_decide_eq_true_2; [done|].
    apply elem_of_app. case_bool_decide as Hin; [by left|right].
    by apply list_elem_of_singleton.
  - rewrite bool_decide_eq_false_2; [done|].
    intros [H6 Hout]. apply Hout, elem_of_app.
    case_bool_decide as Hin.
    + right. by apply list_elem_of_singleton.
    + left. destruct (decide (subject_id (subject act) ∈ completedSubjects up));
        [done|tauto].
Qed.

End AppFacts.

(* ===================================================================== *)
(** ** The voice session *)
(* ===================================================================== *)

Module LiveSessionFacts.
Import Types LiveSession Scenario.

(** *** What the commit and the watchdog leave alone *)

Ltac unfold_commit :=
  unfold fire, commit, watchdogEffect, syncMicRef, triggerModel,
    sendRealtimeInput;
  repeat case_match; try reflexivity.

Lemma untouched_turnCount : untouched turnCount.
Proof. split; intros; unfold_commit. Qed.
Lemma untouched_messages : untouched messages.
Proof. split; intros; unfold_commit. Qed.
Lemma untouched_started : untouched started.
Proof. split; intros; unfold_commit. Qed.
Lemma untouched_nextStartTimeRef : untouched nextStartTimeRef.
Proof. split; intros; unfold_commit. Qed.
Lemma untouched_sourcesRef : untouched sourcesRef.
Proof. split; intros; unfold_commit. Qed.
Lemma untouched_stopped : untouched stopped.
Proof. split; intros; unfold_commit. Qed.
Lemma untouched_cleanup : untouched cleanup.
Proof. split; intros; unfold_commit. Qed.
Lemma untouched_scriptProcessorRef : untouched scriptProcessorRef.
Proof. split; intros; unfold_commit. Qed.
Lemma untouched_effect_isMicOn : untouched effect_isMicOn.
Proof. split; intros; unfold_commit. Qed.
Lemma untouched_isMicOn : untouched isMicOn.
Proof. split; intros; unfold_commit. Qed.

Lemma commit_sent now before after : sent (commit now before after) = sent after.
Proof. unfold_commit. Qed.

Lemma commit_isThinking now before after :
  isThinking (commit now before after) = isThinking after.
Proof. unfold_commit. Qed.

Lemma commit_isMicOnRef now before after :
  isMicOnRef (commit now before after) = isMicOn after.
Proof. unfold_commit. Qed.

Lemma elapse_within_untouched {A} (f : Session → A) (budget : nat) (now : Z) :
  untouched f → ∀ s, f (elapse_within budget now s) = f s.
Proof.
  intros [_ Hfire]. induction budget as [|budget IH]; intros s; simpl; [done|].
  destruct (timer s) as [deadline|]; [|done].
  destruct (deadline <=? now); [|done].
  by rewrite IH, Hfire.
Qed.

Lemma elapse_untouched {A} (f : Session → A) (now : Z) (s : Session) :
  untouched f → f (elapse now s) = f s.
Proof.
  intros Hf. unfold elapse. destruct (timer s); [|done].
  by apply elapse_within_untouched.
Qed.

Lemma step_untouched {A} (f : Session → A) (now : Z) (ev : Event) (s : Session) :
  untouched f → f (step now ev s) = f (handle now ev s).
Proof. intros [Hcommit _]. unfold step. apply Hcommit. Qed.

(** *** [onmessage], field by field *)

Ltac onmessage_cases s :=
  unfold onmessage, enqueue, flush;
  repeat match goal with
         | H : cleanup s = _ |- _ => rewrite H
         end;
  repeat case_match; simplify_eq/=; try done; try congruence.

Lemma onmessage_unmounted now ct d msg s :
  cleanup s = true → onmessage now ct d msg s = s.
Proof. intros H. unfold onmessage. by rewrite H. Qed.

Lemma onmessage_cleanup now ct d msg s :
  cleanup (onmessage now ct d msg s) = cleanup s.
Proof. destruct (cleanup s) eqn:Hc; onmessage_cases s. Qed.

Lemma onmessage_turnCount now ct d msg s :
  cleanup s = false →
  turnCount (onmessage now ct d msg s) =
    if from_option turnComplete false (serverContent msg)
    then S (turnCount s) else turnCount s.
Proof. intros Hc. onmessage_cases s; lia. Qed.

Lemma onmessage_messages now ct d msg s :
  cleanup s = false →
  messages (onmessage now ct d msg s) =
    if JS.truthy (serverContent msg ≫= inputTranscription)
       || JS.truthy (serverContent msg ≫= outputTranscription)
    then updater now (serverContent msg ≫= inputTranscription)
           (serverContent msg ≫= outputTranscription)
           (from_option turnComplete false (serverContent msg)) (messages s)
    else messages s.
Proof. intros Hc. onmessage_cases s. Qed.

Lemma onmessage_sent now ct d msg s : sent (onmessage now ct d msg s) = sent s.
Proof. destruct (cleanup s) eqn:Hc; onmessage_cases s. Qed.

Lemma onmessage_scriptProcessorRef now ct d msg s :
  scriptProcessorRef (onmessage now ct d msg s) = scriptProcessorRef s.
Proof. destruct (cleanup s) eqn:Hc; onmessage_cases s. Qed.

Lemma onmessage_effect_isMicOn now ct d msg s :
  effect_isMicOn (onmessage now ct d msg s) = effect_isMicOn s.
Proof. destruct (cleanup s) eqn:Hc; onmessage_cases s. Qed.

Lemma onmessage_isThinking now ct d msg s :
  cleanup s = false →
  isThinking (onmessage now ct d msg s) =
    if JS.truthy (serverContent msg ≫= inputTranscription) then true
    else if JS.truthy (serverContent msg ≫= inlineData)
            || from_option interrupted false (serverContent msg)
            || from_option turnComplete false (serverContent msg)
         then false
         else isThinking s.
Proof. intros Hc. onmessage_cases s. Qed.

(** *** Teardown flag *)

Lemma handle_cleanup now ev s :
  isUnmount ev = false → cleanup (handle now ev s) = cleanup s.
Proof.
  intros Hev. destruct ev; try done; simpl.
  - unfold onopen. by repeat case_match.
  - apply onmessage_cleanup.
  - unfold onaudioprocess, sendRealtimeInput. by repeat case_match.
  - unfold onclose. by repeat case_match.
Qed.

Lemma step_cleanup now ev s :
  isUnmount ev = false → cleanup (step now ev s) = cleanup s.
Proof.
  intros Hev. rewrite (step_untouched cleanup) by apply untouched_cleanup.
  by apply handle_cleanup.
Qed.

Lemma run_cleanup trace s :
  mounted trace → cleanup (run trace s) = cleanup s.
Proof.
  revert s. induction trace as [|[now ev] trace IH]; intros s Hm; [done|].
  apply Forall_cons in Hm as [Hev Hm]. simpl in *.
  rewrite IH, step_cleanup by done.
  apply elapse_untouched, untouched_cleanup.
Qed.

Lemma mount_cleanup suspended : cleanup (mount suspended) = false.
Proof. by destruct suspended. Qed.

(** *** Turn counting *)

Lemma step_turnCount now ev s :
  cleanup s = false →
  turnCount (step now ev s) =
    if isTurnComplete ev then S (turnCount s) else turnCount s.
Proof.
  intros Hc. rewrite (step_untouched turnCount) by apply untouched_turnCount.
  destruct ev; simpl; try done.
  - unfold onopen. by repeat case_match.
  - by apply onmessage_turnCount.
  - unfold onaudioprocess, sendRealtimeInput. by repeat case_match.
  - unfold onclose. by repeat case_match.
Qed.

Lemma turnCompletes_cons now ev trace :
  turnCompletes ((now, ev) :: trace) =
    ((if isTurnComplete ev then 1 else 0) + turnCompletes trace)%nat.
Proof.
  unfold turnCompletes. destruct (isTurnComplete ev) eqn:Hev.
  - by rewrite filter_cons_True.
  - rewrite filter_cons_False; [done|]. simpl. by rewrite Hev.
Qed.

Lemma run_turnCount trace s :
  cleanup s = false → mounted trace →
  turnCount (run trace s) = (turnCount s + turnCompletes trace)%nat.
Proof.
  revert s. induction trace as [|[now ev] trace IH]; intros s Hc Hm.
  - simpl. unfold turnCompletes. simpl. lia.
  - apply Forall_cons in Hm as [Hev Hm]. simpl in Hev.
    assert (Hc' : cleanup (elapse now s) = false)
      by (by rewrite (elapse_untouched cleanup) by apply untouched_cleanup).
    simpl. rewrite IH; [|by rewrite step_cleanup|done].
    rewrite step_turnCount by done.
    rewrite (elapse_untouched turnCount) by apply untouched_turnCount.
    rewrite turnCompletes_cons. destruct (isTurnComplete ev); lia.
Qed.

(** *** Playback *)

Lemma onmessage_started now ct d msg s :
  cleanup s = false →
  started (onmessage now ct d msg s) =
    if JS.truthy (serverContent msg ≫= inlineData)
    then started s ++ [scheduled ct d s] else started s.
Proof. intros Hc. unfold scheduled, startAt. onmessage_cases s. Qed.

Lemma onmessage_nextStartTimeRef now ct d msg s :
  cleanup s = false →
  nextStartTimeRef (onmessage now ct d msg s) =
    if from_option interrupted false (serverContent msg) then 0%float
    else if JS.truthy (serverContent msg ≫= inlineData)
         then PrimFloat.add (startAt (nextStartTimeRef s) ct) d
         else nextStartTimeRef s.
Proof. intros Hc. unfold startAt. onmessage_cases s. Qed.

Lemma onmessage_sourcesRef now ct d msg s :
  cleanup s = false →
  sourcesRef (onmessage now ct d msg s) =
    if from_option interrupted false (serverContent msg) then ∅
    else if JS.truthy (serverContent msg ≫= inlineData)
         then {[ length (started s) ]} ∪ sourcesRef s
         else sourcesRef s.
Proof. intros Hc. onmessage_cases s. Qed.

Lemma onmessage_stopped now ct d msg s :
  cleanup s = false →
  stopped (onmessage now ct d msg s) =
    if from_option interrupted false (serverContent msg)
    then stopped s ∪
           (if JS.truthy (serverContent msg ≫= inlineData)
            then {[ length (started s) ]} ∪ sourcesRef s
            else sourcesRef s)
    else stopped s.
Proof. intros Hc. onmessage_cases s. Qed.

Lemma chained_app cursor l1 l2 :
  chained cursor (l1 ++ l2) ↔
  chained cursor l1 ∧ chained (cursorAfter cursor l1) l2.
Proof.
  revert cursor. induction l1 as [|e l1 IH]; intros cursor; simpl.
  - unfold cursorAfter. simpl. tauto.
  - unfold cursorAfter in *. simpl. rewrite IH. tauto.
Qed.

Lemma cursorAfter_app cursor l1 l2 :
  cursorAfter cursor (l1 ++ l2) = cursorAfter (cursorAfter cursor l1) l2.
Proof. unfold cursorAfter. apply fold_left_app. Qed.

Lemma chained_consecutive cursor log i a b :
  chained cursor log → log !! i = Some a → log !! S i = Some b →
  when b = startAt (PrimFloat.add (when a) (duration a)) (clock b).
Proof.
  revert cursor i. induction log as [|e log IH]; intros cursor i Hch Ha Hb;
    [done|].
  destruct Hch as [_ Hch]. destruct i as [|i]; simpl in *.
  - simplify_eq. destruct log as [|e' log]; [done|].
    simpl in Hb. simplify_eq. by destruct Hch.
  - by eapply IH.
Qed.

(** One event that is not an interruption extends the log by the
    buffer it carries, if any, chained from the cursor. *)
Lemma step_playback now ev s :
  cleanup s = false → isInterrupted ev = false →
  ∃ new, started (step now ev s) = started s ++ new ∧
         map (λ e, (clock e, duration e)) new = option_list (bufferOf ev) ∧
         chained (nextStartTimeRef s) new ∧
         nextStartTimeRef (step now ev s) =
           cursorAfter (nextStartTimeRef s) new.
Proof.
  intros Hc Hev.
  rewrite (step_untouched started) by apply untouched_started.
  rewrite (step_untouched nextStartTimeRef) by apply untouched_nextStartTimeRef.
  assert (Hsame : bufferOf ev = None →
                  started (handle now ev s) = started s →
                  nextStartTimeRef (handle now ev s) = nextStartTimeRef s →
                  ∃ new, started (handle now ev s) = started s ++ new ∧
                         map (λ e, (clock e, duration e)) new =
                           option_list (bufferOf ev) ∧
                         chained (nextStartTimeRef s) new ∧
                         nextStartTimeRef (handle now ev s) =
                           cursorAfter (nextStartTimeRef s) new).
  { intros H0 H1 H2. exists []. rewrite H0. by rewrite app_nil_r. }
  destruct ev as [| |ct d msg| | | | | | |]; simpl in *;
    try (by apply Hsame).
  - apply Hsame; unfold onopen; by repeat case_match.
  - rewrite onmessage_started, onmessage_nextStartTimeRef by done.
    rewrite Hev.
    destruct (JS.truthy (serverContent msg ≫= inlineData)).
    + exists [scheduled ct d s]. by repeat split.
    + exists []. by rewrite app_nil_r.
  - apply Hsame; unfold onaudioprocess, sendRealtimeInput; by repeat case_match.
  - apply Hsame; unfold onclose; by repeat case_match.
Qed.

Lemma buffers_cons now ev trace :
  buffers ((now, ev) :: trace) = option_list (bufferOf ev) ++ buffers trace.
Proof. unfold buffers. simpl. by destruct (bufferOf ev). Qed.

Lemma run_playback trace s :
  cleanup s = false → mounted trace → uninterrupted trace →
  ∃ new, started (run trace s) = started s ++ new ∧
         map (λ e, (clock e, duration e)) new = buffers trace ∧
         chained (nextStartTimeRef s) new ∧
         nextStartTimeRef (run trace s) =
           cursorAfter (nextStartTimeRef s) new.
Proof.
  revert s. induction trace as [|[now ev] trace IH]; intros s Hc Hm Hu.
  - exists []. simpl. by rewrite app_nil_r.
  - apply Forall_cons in Hu as [Hev Hu]. apply Forall_cons in Hm as [Hev' Hm].
    simpl in Hev, Hev'. cbn [run].
    assert (Hc' : cleanup (elapse now s) = false)
      by (by rewrite (elapse_untouched cleanup) by apply untouched_cleanup).
    destruct (step_playback now ev (elapse now s) Hc' Hev)
      as (n1 & Hs1 & Hb1 & Hc1 & Hn1).
    destruct (IH (step now ev (elapse now s))) as (n2 & Hs2 & Hb2 & Hc2 & Hn2);
      [by rewrite step_cleanup|done|done|].
    rewrite (elapse_untouched started) in Hs1 by apply untouched_started.
    rewrite (elapse_untouched nextStartTimeRef) in Hc1, Hn1
      by apply untouched_nextStartTimeRef.
    exists (n1 ++ n2). rewrite Hs2, Hs1, Hn2, Hn1.
    rewrite app_assoc, chained_app, cursorAfter_app, map_app, buffers_cons.
    rewrite Hn1 in Hc2. by rewrite Hb1, Hb2.
Qed.

(** C5. Through any events of a mounted session none of which is an
    interruption, the buffers scheduled are those of the audio chunks
    received, in order, each with the clock reading and the duration it
    came with. Each starts at the cursor [nextStartTime], moved up to
    the clock reading first when it is behind it, and the cursor then
    advances by the buffer's duration. So buffer [i+1] starts at the
    start of buffer [i] plus its duration when the clock has not passed
    that point, and at the clock reading otherwise; it never starts
    before that point. *)
Theorem playback_schedule (trace : list (Z * Event)) (s : Session) :
  cleanup s = false → mounted trace → uninterrupted trace →
  ∃ new : list Scheduled,
    started (run trace s) = started s ++ new ∧
    map (λ e, (clock e, duration e)) new = buffers trace ∧
    chained (nextStartTimeRef s) new ∧
    nextStartTimeRef (run trace s) = cursorAfter (nextStartTimeRef s) new ∧
    ∀ (i : nat) (a b : Scheduled),
      new !! i = Some a → new !! S i = Some b →
      when b = startAt (PrimFloat.add (when a) (duration a)) (clock b) ∧
      (PrimFloat.ltb (PrimFloat.add (when a) (duration a)) (clock b) = false →
       when b = PrimFloat.add (when a) (duration a)) ∧
      (PrimFloat.ltb (PrimFloat.add (when a) (duration a)) (clock b) = true →
       when b = clock b) ∧
      (when b = PrimFloat.add (when a) (duration a) ∨
       PrimFloat.ltb (PrimFloat.add (when a) (duration a)) (when b) = true).
Proof.
  intros Hc Hm Hu.
  destruct (run_playback trace s Hc Hm Hu) as (new & Hs & Hb & Hch & Hn).
  exists new. do 4 (split; [done|]).
  intros i a b Ha Hb'.
  pose proof (chained_consecutive _ _ _ _ _ Hch Ha Hb') as Hw.
  unfold startAt in *.
  destruct (PrimFloat.ltb (PrimFloat.add (when a) (duration a)) (clock b))
    eqn:Hlt.
  - repeat split; try done. right. by rewrite Hw.
  - repeat split; try done. by left.
Qed.

Lemma playback_schedule_witness :
  ∃ new : list Scheduled,
    started (run twoChunks connected) = started connected ++ new ∧
    map (λ e, (clock e, duration e)) new = buffers twoChunks ∧
    chained (nextStartTimeRef connected) new ∧
    nextStartTimeRef (run twoChunks connected) =
      cursorAfter (nextStartTimeRef connected) new ∧
    ∀ (i : nat) (a b : Scheduled),
      new !! i = Some a → new !! S i = Some b →
      when b = startAt (PrimFloat.add (when a) (duration a)) (clock b) ∧
      (PrimFloat.ltb (PrimFloat.add (when a) (duration a)) (clock b) = false →
       when b = PrimFloat.add (when a) (duration a)) ∧
      (PrimFloat.ltb (PrimFloat.add (when a) (duration a)) (clock b) = true →
       when b = clock b) ∧
      (when b = PrimFloat.add (when a) (duration a) ∨
       PrimFloat.ltb (PrimFloat.add (when a) (duration a)) (when b) = true).
Proof.
  apply (playback_schedule twoChunks connected);
    [reflexivity | repeat constructor | repeat constructor].
Defined.

(** Back to back: the second chunk starts where the first ends. *)
Example two_chunks_back_to_back :
  started (run twoChunks connected) =
    [ {| node := 0; clock := 1; when := 1; duration := 2 |};
      {| node := 1; clock := 1.5; when := 3; duration := 2 |} ].
Proof. vm_compute. reflexivity. Qed.

(** C5, as stated, fails after an idle gap: the first buffer starts at
    1 s and lasts 2 s, the second is enqueued when the clock reads
    10 s and starts at 10 s, not at 1 + 2 = 3 s. *)
Lemma playback_idle_gap_counterexample :
  uninterrupted idleGap ∧
  started (run idleGap connected) =
    [ {| node := 0; clock := 1; when := 1; duration := 2 |};
      {| node := 1; clock := 10; when := 10; duration := 2 |} ] ∧
  PrimFloat.eqb 10 (PrimFloat.add 1 2) = false.
Proof.
  split; [repeat constructor|]. split; vm_compute; reflexivity.
Qed.

(** *** Interruption *)

Lemma startAt_zero (ct : float) : clockReading ct → startAt 0 ct = ct.
Proof.
  intros [->|Hlt]; unfold startAt; [reflexivity|]. by rewrite Hlt.
Qed.

(** C6. An inbound message with [interrupted] set, handled by a mounted
    session, stops every source that was active (and the one the same
    message may have scheduled), leaves the active set empty and the
    cursor [nextStartTime] at 0, whatever the number of sources playing;
    an audio chunk received next is scheduled to start at the clock
    reading it comes with. *)
Theorem interrupted_flushes (now : Z) (ct d : float)
    (msg : LiveServerMessage) (s : Session) :
  cleanup s = false →
  from_option interrupted false (serverContent msg) = true →
  sourcesRef s ⊆ stopped (step now (Message ct d msg) s) ∧
  sourcesRef (step now (Message ct d msg) s) = ∅ ∧
  nextStartTimeRef (step now (Message ct d msg) s) = 0%float ∧
  ∀ (now' : Z) (ct' d' : float) (data : JS.str),
    data ≠ [] → clockReading ct' →
    started (step now' (Message ct' d' (audioChunk data))
               (step now (Message ct d msg) s)) =
      started (step now (Message ct d msg) s) ++
        [ {| node := length (started (step now (Message ct d msg) s));
             clock := ct'; when := ct'; duration := d' |} ].
Proof.
  intros Hc Hint.
  set (s' := step now (Message ct d msg) s).
  assert (Hc' : cleanup s' = false) by (unfold s'; by rewrite step_cleanup).
  assert (Hn : nextStartTimeRef s' = 0%float).
  { unfold s'.
    rewrite (step_untouched nextStartTimeRef) by apply untouched_nextStartTimeRef.
    simpl. rewrite onmessage_nextStartTimeRef by done. by rewrite Hint. }
  split; [|split; [|split; [done|]]].
  - unfold s'. rewrite (step_untouched stopped) by apply untouched_stopped.
    simpl. rewrite onmessage_stopped by done. rewrite Hint.
    destruct (JS.truthy _); set_solver.
  - unfold s'. rewrite (step_untouched sourcesRef) by apply untouched_sourcesRef.
    simpl. rewrite onmessage_sourcesRef by done. by rewrite Hint.
  - intros now' ct' d' data Hdata Hclock.
    rewrite (step_untouched started) by apply untouched_started.
    simpl. rewrite onmessage_started by done.
    destruct data as [|c data]; [done|]. simpl.
    unfold scheduled. by rewrite Hn, startAt_zero.
Qed.

Lemma interrupted_flushes_witness :
  sourcesRef threePlaying
    ⊆ stopped (step 2000 (Message 2 0 interruptedOnly) threePlaying) ∧
  sourcesRef (step 2000 (Message 2 0 interruptedOnly) threePlaying) = ∅ ∧
  nextStartTimeRef (step 2000 (Message 2 0 interruptedOnly) threePlaying)
    = 0%float ∧
  ∀ (now' : Z) (ct' d' : float) (data : JS.str),
    data ≠ [] → clockReading ct' →
    started (step now' (Message ct' d' (audioChunk data))
               (step 2000 (Message 2 0 interruptedOnly) threePlaying)) =
      started (step 2000 (Message 2 0 interruptedOnly) threePlaying) ++
        [ {| node := length (started (step 2000 (Message 2 0 interruptedOnly)
                                        threePlaying));
             clock := ct'; when := ct'; duration := d' |} ].
Proof.
  apply (interrupted_flushes 2000 2 0 interruptedOnly threePlaying);
    reflexivity.
Defined.

(** Three sources are active before the interruption, none after. *)
Example three_playing_then_none :
  size (sourcesRef threePlaying) = 3%nat ∧
  size (sourcesRef (step 2000 (Message 2 0 interruptedOnly) threePlaying))
    = 0%nat ∧
  stopped (step 2000 (Message 2 0 interruptedOnly) threePlaying)
    = sourcesRef threePlaying.
Proof. repeat split; vm_compute; reflexivity. Qed.

(** *** The completion gate *)

(** C7. [canComplete] is false exactly for the turn counts 0, 1 and 2
    and true exactly from 3 on; in a mounted session the turn count is
    the number of turn-complete signals received, so after three of
    them completion is permitted; the button is disabled, and has no
    click handler, whenever [canComplete] is false. *)
Theorem completion_gate (n : nat) (s : Session)
    (trace : list (Z * Event)) (suspended : bool) :
  mounted trace →
  (canComplete n = false ↔ n = 0 ∨ n = 1 ∨ n = 2)%nat ∧
  (canComplete n = true ↔ 3 ≤ n)%nat ∧
  turnCount (run trace (mount suspended)) = turnCompletes trace ∧
  ((3 ≤ turnCompletes trace)%nat →
   canComplete (turnCount (run trace (mount suspended))) = true) ∧
  disabled (completeButton s) = negb (canComplete (turnCount s)) ∧
  (canComplete (turnCount s) = false →
   onClick (completeButton s) = None ∧ disabled (completeButton s) = true) ∧
  (canComplete (turnCount s) = true →
   onClick (completeButton s) = Some onComplete ∧
   disabled (completeButton s) = false).
Proof.
  intros Hm.
  assert (Hcount : turnCount (run trace (mount suspended)) = turnCompletes trace).
  { rewrite run_turnCount; [by destruct suspended|apply mount_cleanup|done]. }
  unfold canComplete, completeButton.
  split; [rewrite Nat.leb_gt; lia|].
  split; [apply Nat.leb_le|].
  cbn [onClick disabled].
  split; [done|].
  split; [intros H3; rewrite Hcount; by apply Nat.leb_le|].
  split; [done|].
  split; intros Hgate; fold (canComplete (turnCount s)) in Hgate;
    by rewrite Hgate.
Qed.

Lemma completion_gate_witness :
  (canComplete 2 = false ↔ 2 = 0 ∨ 2 = 1 ∨ 2 = 2)%nat ∧
  (canComplete 2 = true ↔ 3 ≤ 2)%nat ∧
  turnCount (run threeTurns (mount false)) = turnCompletes threeTurns ∧
  ((3 ≤ turnCompletes threeTurns)%nat →
   canComplete (turnCount (run threeTurns (mount false))) = true) ∧
  disabled (completeButton connected) = negb (canComplete (turnCount connected)) ∧
  (canComplete (turnCount connected) = false →
   onClick (completeButton connected) = None ∧
   disabled (completeButton connected) = true) ∧
  (canComplete (turnCount connected) = true →
   onClick (completeButton connected) = Some onComplete ∧
   disabled (completeButton connected) = false).
Proof.
  apply (completion_gate 2 connected threeTurns false). repeat constructor.
Defined.

Example three_turns_permit_completion :
  canComplete (turnCount (run threeTurns (mount false))) = true ∧
  completeButton (run threeTurns (mount false)) =
    {| onClick := Some onComplete; disabled := false |}.
Proof. split; vm_compute; reflexivity. Qed.

Example two_turns_do_not :
  completeButton (run (take 4 threeTurns) (mount false)) =
    {| onClick := None; disabled := true |}.
Proof. vm_compute. reflexivity. Qed.

(** *** The transcript *)

Ltac unfold_handlers :=
  unfold onopen, triggerModel, handleStartInteraction, sendRealtimeInput,
    onended, onaudioprocess, toggleMic, onclose, onerror, unmount;
  repeat case_match; try reflexivity.

Lemma keeps_refl l : keeps l l.
Proof. split; [lia|done]. Qed.

Lemma keeps_trans a b c : keeps a b → keeps b c → keeps a c.
Proof.
  intros [Hlen1 H1] [Hlen2 H2]. split; [lia|].
  intros i m Hi Hfrozen. apply H2; [by apply H1|].
  destruct Hfrozen as [Hlt|Hfin]; [left; lia | by right].
Qed.

Lemma keeps_snoc l x : keeps l (l ++ [x]).
Proof.
  split; [rewrite length_app; lia|].
  intros i m Hi _. rewrite lookup_app_l; [done|].
  by eapply lookup_lt_Some.
Qed.

Lemma keeps_alter_last (f : ChatMessage → ChatMessage) l :
  (∀ m, l !! lastIndex l = Some m → isPartial m = false → f m = m) →
  keeps l (alter f (lastIndex l) l).
Proof.
  intros Hf. split; [by rewrite length_alter|].
  intros i m Hi Hfrozen.
  destruct (decide (lastIndex l = i)) as [<-|Hne].
  - destruct Hfrozen as [Hlt|Hfin]; [unfold lastIndex in Hlt; lia|].
    rewrite list_lookup_alter_eq, Hi. simpl. f_equal. by apply Hf.
  - by rewrite list_lookup_alter_ne.
Qed.

Lemma pushInput_keeps now inputTrans l : keeps l (pushInput now inputTrans l).
Proof.
  unfold pushInput. destruct inputTrans as [[|c f]|]; try apply keeps_refl.
  destruct (l !! lastIndex l) as [lastMsg|] eqn:Hlast; [|apply keeps_snoc].
  destruct (Role_eqb (role lastMsg) user && isPartial lastMsg) eqn:Hopen;
    [|apply keeps_snoc].
  apply keeps_alter_last. intros m Hm Hfin. simplify_eq.
  apply andb_true_iff in Hopen as [_ Hp]. congruence.
Qed.

Lemma pushOutput_keeps now outputTrans l : keeps l (pushOutput now outputTrans l).
Proof.
  unfold pushOutput. destruct outputTrans as [[|c f]|]; try apply keeps_refl.
  destruct (l !! lastIndex l) as [lastMsg|] eqn:Hlast; [|apply keeps_snoc].
  destruct (Role_eqb (role lastMsg) model && isPartial lastMsg) eqn:Hopen;
    [|apply keeps_snoc].
  apply keeps_alter_last. intros m Hm Hfin. simplify_eq.
  apply andb_true_iff in Hopen as [_ Hp]. congruence.
Qed.

Lemma markComplete_keeps turnComplete l : keeps l (markComplete turnComplete l).
Proof.
  unfold markComplete. destruct turnComplete; [|apply keeps_refl].
  apply keeps_alter_last. intros [i r t p] _ Hfin. simpl in Hfin.
  unfold finalize. simpl. by rewrite Hfin.
Qed.

Lemma updater_keeps now inputTrans outputTrans turnComplete l :
  keeps l (updater now inputTrans outputTrans turnComplete l).
Proof.
  unfold updater.
  eapply keeps_trans; [apply pushInput_keeps|].
  eapply keeps_trans; [apply pushOutput_keeps|].
  apply markComplete_keeps.
Qed.

Lemma handle_messages now ev s :
  (∀ ct d msg, ev ≠ Message ct d msg) →
  messages (handle now ev s) = messages s.
Proof.
  intros Hev. destruct ev as [| |ct d msg| | | | | | |]; simpl;
    try by unfold_handlers.
  by destruct (Hev ct d msg).
Qed.

Lemma step_keeps now ev s : keeps (messages s) (messages (step now ev s)).
Proof.
  rewrite (step_untouched messages) by apply untouched_messages.
  destruct ev as [| |ct d msg| | | | | | |];
    try (rewrite handle_messages by done; apply keeps_refl).
  simpl. destruct (cleanup s) eqn:Hc.
  - rewrite onmessage_unmounted by done. apply keeps_refl.
  - rewrite onmessage_messages by done.
    destruct (_ || _); [apply updater_keeps | apply keeps_refl].
Qed.

Lemma run_keeps trace s : keeps (messages s) (messages (run trace s)).
Proof.
  revert s. induction trace as [|[now ev] trace IH]; intros s;
    [apply keeps_refl|].
  simpl. eapply keeps_trans; [|apply IH].
  rewrite <- (elapse_untouched messages now s) at 1 by apply untouched_messages.
  apply step_keeps.
Qed.

Lemma lastIndex_snoc (init : list ChatMessage) m :
  lastIndex (init ++ [m]) = length init.
Proof. unfold lastIndex. rewrite length_app. simpl. lia. Qed.

Lemma alter_last_snoc (f : ChatMessage → ChatMessage) init m :
  alter f (lastIndex (init ++ [m])) (init ++ [m]) = init ++ [f m].
Proof.
  rewrite lastIndex_snoc.
  rewrite alter_app_r_alt by lia. by rewrite Nat.sub_diag.
Qed.

Lemma lookup_last_snoc (init : list ChatMessage) m :
  (init ++ [m]) !! lastIndex (init ++ [m]) = Some m.
Proof. rewrite lastIndex_snoc. apply list_lookup_middle. done. Qed.

(** A user fragment joins the user's open message at its end. *)
Lemma step_userSays now ct d f s init m :
  cleanup s = false → messages s = init ++ [m] →
  role m = user → isPartial m = true → f ≠ [] →
  messages (step now (Message ct d (userSays f)) s) =
    init ++ [withText (text m ++ f) m].
Proof.
  intros Hc Hmsgs Hrole Hpartial Hf.
  rewrite (step_untouched messages) by apply untouched_messages.
  simpl. rewrite onmessage_messages by done.
  destruct f as [|c f]; [done|]. simpl.
  unfold updater, markComplete, pushOutput, pushInput.
  rewrite Hmsgs, lookup_last_snoc, Hrole, Hpartial. simpl.
  by rewrite alter_last_snoc.
Qed.

(** A model fragment joins the model's open message at its end, and
    the joined text goes through [cleanText]. *)
Lemma step_modelSays now ct d f s init m :
  cleanup s = false → messages s = init ++ [m] →
  role m = model → isPartial m = true → f ≠ [] →
  messages (step now (Message ct d (modelSays f)) s) =
    init ++ [withText (cleanText (text m ++ f)) m].
Proof.
  intros Hc Hmsgs Hrole Hpartial Hf.
  rewrite (step_untouched messages) by apply untouched_messages.
  simpl. rewrite onmessage_messages by done.
  destruct f as [|c f]; [done|]. simpl.
  unfold updater, markComplete, pushOutput, pushInput.
  rewrite Hmsgs, lookup_last_snoc, Hrole, Hpartial. simpl.
  by rewrite alter_last_snoc.
Qed.

Lemma run_userSays fs : ∀ s init m,
  cleanup s = false → messages s = init ++ [m] →
  role m = user → isPartial m = true → Forall (λ p, p.2 ≠ []) fs →
  messages (run (utter userSays fs) s) =
    init ++ [withText (text m ++ concat fs.*2) m].
Proof.
  induction fs as [|[now f] fs IH]; intros s init m Hc Hmsgs Hrole Hp Hfs.
  - simpl. rewrite app_nil_r, Hmsgs. by destruct m.
  - apply Forall_cons in Hfs as [Hf Hfs]. simpl in Hf. cbn [utter map run].
    change (map _ fs) with (utter userSays fs).
    assert (Hc' : cleanup (elapse now s) = false)
      by (by rewrite (elapse_untouched cleanup) by apply untouched_cleanup).
    assert (Hmsgs' : messages (elapse now s) = init ++ [m])
      by (by rewrite (elapse_untouched messages) by apply untouched_messages).
    rewrite (IH _ init (withText (text m ++ f) m)); try done.
    + simpl. by rewrite app_assoc.
    + by rewrite step_cleanup.
    + by apply step_userSays.
Qed.

Lemma run_modelSays fs : ∀ s init m,
  cleanup s = false → messages s = init ++ [m] →
  role m = model → isPartial m = true → Forall (λ p, p.2 ≠ []) fs →
  messages (run (utter modelSays fs) s) =
    init ++ [withText (fold_left (λ acc f, cleanText (acc ++ f)) fs.*2 (text m)) m].
Proof.
  induction fs as [|[now f] fs IH]; intros s init m Hc Hmsgs Hrole Hp Hfs.
  - simpl. rewrite Hmsgs. by destruct m.
  - apply Forall_cons in Hfs as [Hf Hfs]. simpl in Hf. cbn [utter map run].
    change (map _ fs) with (utter modelSays fs).
    assert (Hc' : cleanup (elapse now s) = false)
      by (by rewrite (elapse_untouched cleanup) by apply untouched_cleanup).
    assert (Hmsgs' : messages (elapse now s) = init ++ [m])
      by (by rewrite (elapse_untouched messages) by apply untouched_messages).
    rewrite (IH _ init (withText (cleanText (text m ++ f)) m)); try done.
    + by rewrite step_cleanup.
    + by apply step_modelSays.
Qed.

(** C8. Through any events, the transcript only grows and a message
    that is not the last one, or that is finalized, stays what it is at
    its index: an update appends messages or rewrites the trailing
    message while it is partial. The fragments of a role join its open
    trailing message in arrival order: the user's text is the old text
    followed by the fragments in order, the model's text is built the
    same way with [cleanText] applied after each fragment is joined. *)
Theorem transcript_append_only (trace : list (Z * Event)) (s : Session) :
  keeps (messages s) (messages (run trace s)) ∧
  (∀ init m fs,
     cleanup s = false → messages s = init ++ [m] →
     role m = user → isPartial m = true → Forall (λ p, p.2 ≠ []) fs →
     messages (run (utter userSays fs) s) =
       init ++ [withText (text m ++ concat fs.*2) m]) ∧
  (∀ init m fs,
     cleanup s = false → messages s = init ++ [m] →
     role m = model → isPartial m = true → Forall (λ p, p.2 ≠ []) fs →
     messages (run (utter modelSays fs) s) =
       init ++ [withText
                  (fold_left (λ acc f, cleanText (acc ++ f)) fs.*2 (text m)) m]).
Proof.
  split; [apply run_keeps|]. split; intros init m fs.
  - apply run_userSays.
  - apply run_modelSays.
Qed.

Lemma transcript_append_only_witness :
  keeps (messages greetingBegun)
        (messages (run (utter userSays (drop 1 greeting)) greetingBegun)) ∧
  messages (run (utter userSays (drop 1 greeting)) greetingBegun) =
    [] ++ [withText (JS.lit "Ol" ++ concat (drop 1 greeting).*2)
             {| id := JS.toString 1000; role := user; text := JS.lit "Ol";
                isPartial := true |}] ∧
  messages (run (utter modelSays (drop 1 answer)) answerBegun) =
    [] ++ [withText
             (fold_left (λ acc f, cleanText (acc ++ f)) (drop 1 answer).*2
                        (JS.lit "Bom"))
             {| id := JS.toString 2000; role := model; text := JS.lit "Bom";
                isPartial := true |}].
Proof.
  split; [|split].
  - apply (proj1 (transcript_append_only
                    (utter userSays (drop 1 greeting)) greetingBegun)).
  - apply (proj1 (proj2 (transcript_append_only [] greetingBegun))
             [] {| id := JS.toString 1000; role := user; text := JS.lit "Ol";
                   isPartial := true |} (drop 1 greeting));
      try reflexivity.
    repeat constructor; done.
  - apply (proj2 (proj2 (transcript_append_only [] answerBegun))
             [] {| id := JS.toString 2000; role := model; text := JS.lit "Bom";
                   isPartial := true |} (drop 1 answer));
      try reflexivity.
    repeat constructor; done.
Defined.

(** The greeting arrives as one message, whatever the cuts. *)
Example greeting_merged :
  messages (run (utter userSays greeting) connected) =
    [ {| id := JS.toString 1000; role := user;
         text := JS.lit "Ol" ++ [225%N] ++ JS.lit ", tudo bem?";
         isPartial := true |} ].
Proof. vm_compute. reflexivity. Qed.

(** *** The watchdog *)

Lemma elapse_idle now s : timer s = None → elapse now s = s.
Proof. intros H. unfold elapse. by rewrite H. Qed.

Lemma elapse_early now s deadline :
  timer s = Some deadline → now < deadline → elapse now s = s.
Proof.
  intros Ht Hlt. unfold elapse. rewrite Ht.
  destruct (Z.to_nat _) as [|budget]; simpl; [done|].
  rewrite Ht. destruct (Z.leb_spec deadline now); [lia|done].
Qed.

(** The timeout callback in a session that is thinking: the stimulus
    is sent, [setIsThinking(true)] changes nothing, and the effect does
    not run again, so no timer is pending afterwards. *)
Lemma fire_thinking deadline s :
  cleanup s = false → isThinking s = true →
  sent (fire deadline s) = sent s ++ [wakeStimulus] ∧
  timer (fire deadline s) = None ∧
  isThinking (fire deadline s) = true ∧
  cleanup (fire deadline s) = false.
Proof.
  intros Hc Hth. unfold fire, commit, watchdogEffect, syncMicRef, triggerModel,
    sendRealtimeInput. simpl. rewrite Hc, Hth. simpl. by rewrite Hc.
Qed.

Lemma elapse_due now s deadline :
  cleanup s = false → isThinking s = true →
  timer s = Some deadline → deadline <= now →
  elapse now s = fire deadline s.
Proof.
  intros Hc Hth Ht Hle. unfold elapse. rewrite Ht.
  destruct (Z.to_nat ((now - deadline) / 4000 + 1)) as [|budget] eqn:Hb.
  { pose proof (Z.div_pos (now - deadline) 4000). lia. }
  simpl. rewrite Ht. destruct (Z.leb_spec deadline now); [|lia].
  destruct (fire_thinking deadline s Hc Hth) as (_ & Hnone & _).
  destruct budget; simpl; [done|]. by rewrite Hnone.
Qed.

(** The budget of [elapse] is enough: no timeout is left due. *)
Lemma fire_timer deadline s :
  timer (fire deadline s) = None ∨
  timer (fire deadline s) = Some (deadline + 4000).
Proof.
  unfold fire, commit, watchdogEffect, syncMicRef, triggerModel,
    sendRealtimeInput. simpl. repeat case_match; auto.
Qed.

Lemma elapse_within_settled now budget : ∀ s,
  (∀ deadline, timer s = Some deadline → now - deadline < 4000 * Z.of_nat budget) →
  match timer (elapse_within budget now s) with
  | Some deadline => now < deadline
  | None => True
  end.
Proof.
  induction budget as [|budget IH]; intros s Hs; simpl.
  - destruct (timer s) as [deadline|] eqn:Ht; [|done].
    specialize (Hs deadline eq_refl). lia.
  - destruct (timer s) as [deadline|] eqn:Ht; [|by rewrite Ht].
    destruct (Z.leb_spec deadline now) as [Hle|Hgt]; [|by rewrite Ht].
    apply IH. intros deadline' Ht'.
    specialize (Hs deadline eq_refl).
    destruct (fire_timer deadline s) as [Hf|Hf]; rewrite Hf in Ht';
      simplify_eq. lia.
Qed.

Lemma elapse_settled now s :
  match timer (elapse now s) with
  | Some deadline => now < deadline
  | None => True
  end.
Proof.
  unfold elapse. destruct (timer s) as [deadline|] eqn:Ht; [|by rewrite Ht].
  apply elapse_within_settled. intros deadline' Ht'.
  assert (deadline' = deadline) as -> by congruence.
  destruct (Z.le_gt_cases deadline now) as [Hle|Hgt].
  - rewrite Z2Nat.id by (pose proof (Z.div_pos (now - deadline) 4000); lia).
    pose proof (Z.mul_succ_div_gt (now - deadline) 4000). lia.
  - assert (0 <= Z.of_nat (Z.to_nat ((now - deadline) / 4000 + 1))) by lia.
    lia.
Qed.

Lemma onmessage_timer now ct d msg s : timer (onmessage now ct d msg s) = timer s.
Proof. destruct (cleanup s) eqn:Hc; onmessage_cases s. Qed.

Lemma step_timer now ev s :
  cleanup (handle now ev s) = false →
  timer (step now ev s) =
    if Bool.eqb (isThinking s) (isThinking (handle now ev s))
    then timer (handle now ev s)
    else if isThinking (handle now ev s) then Some (now + 4000) else None.
Proof.
  intros Hc. unfold step, commit, watchdogEffect, syncMicRef. simpl.
  rewrite Hc. by repeat case_match.
Qed.

(** C2, as amended. In a mounted session that is thinking with the
    watchdog pending: an inbound message that carries model audio, a
    turn-complete or an interruption, and no user transcription, before
    the deadline, cancels the timer and no further stimulus is sent; a
    message that carries a model transcript fragment alone leaves the
    timer pending; when nothing arrives by the deadline exactly one
    more wake stimulus is sent, and the timer is then not pending:
    [setIsThinking(true)] leaves [isThinking] as it was, so the effect
    does not run again. The timer is set, 4000 ms ahead, by any event
    that takes [isThinking] from false to true. *)
Theorem watchdog_behaviour (s : Session) (deadline : Z) :
  cleanup s = false → isThinking s = true → timer s = Some deadline →
  (∀ (now : Z) (ct d : float) (msg : LiveServerMessage) (horizon : Z),
     now < deadline →
     JS.truthy (serverContent msg ≫= inlineData) = true ∨
     from_option turnComplete false (serverContent msg) = true ∨
     from_option interrupted false (serverContent msg) = true →
     JS.truthy (serverContent msg ≫= inputTranscription) = false →
     timer (step now (Message ct d msg) (elapse now s)) = None ∧
     sent (elapse horizon (step now (Message ct d msg) (elapse now s)))
       = sent s) ∧
  (∀ (now : Z) (ct d : float) (f : JS.str),
     now < deadline →
     timer (step now (Message ct d (modelSays f)) (elapse now s))
       = Some deadline) ∧
  (∀ horizon : Z,
     deadline <= horizon →
     sent (elapse horizon s) = sent s ++ [wakeStimulus] ∧
     timer (elapse horizon s) = None ∧
     isThinking (elapse horizon s) = true) ∧
  (∀ (now : Z) (ev : Event) (s0 : Session),
     cleanup (handle now ev s0) = false →
     isThinking s0 = false → isThinking (step now ev s0) = true →
     timer (step now ev s0) = Some (now + 4000)).
Proof.
  intros Hc Hth Ht. split; [|split; [|split]].
  - intros now ct d msg horizon Hnow Hactivity Hquiet.
    rewrite (elapse_early now s deadline) by done.
    assert (Hc' : cleanup (handle now (Message ct d msg) s) = false)
      by (simpl; by rewrite onmessage_cleanup).
    assert (Hnone : timer (step now (Message ct d msg) s) = None).
    { rewrite step_timer by done. simpl.
      rewrite onmessage_isThinking, Hquiet, Hth by done.
      destruct Hactivity as [->| [->| ->]]; simpl;
        by rewrite ?orb_true_r. }
    split; [done|].
    rewrite elapse_idle by done.
    unfold step. by rewrite commit_sent; simpl; rewrite onmessage_sent.
  - intros now ct d f Hnow.
    rewrite (elapse_early now s deadline) by done.
    rewrite step_timer by (simpl; by rewrite onmessage_cleanup).
    simpl. rewrite onmessage_isThinking, onmessage_timer, Hth by done.
    simpl. by destruct f.
  - intros horizon Hle. rewrite (elapse_due horizon s deadline) by done.
    by destruct (fire_thinking deadline s Hc Hth) as (? & ? & ? & _).
  - intros now ev s0 Hc0 Hidle Hbusy.
    rewrite step_timer by done. unfold step in Hbusy.
    rewrite commit_isThinking in Hbusy. by rewrite Hidle, Hbusy.
Qed.

Lemma watchdog_behaviour_witness :
  (∀ (now : Z) (ct d : float) (msg : LiveServerMessage) (horizon : Z),
     now < 4500 →
     JS.truthy (serverContent msg ≫= inlineData) = true ∨
     from_option turnComplete false (serverContent msg) = true ∨
     from_option interrupted false (serverContent msg) = true →
     JS.truthy (serverContent msg ≫= inputTranscription) = false →
     timer (step now (Message ct d msg) (elapse now connected)) = None ∧
     sent (elapse horizon (step now (Message ct d msg) (elapse now connected)))
       = sent connected) ∧
  (∀ (now : Z) (ct d : float) (f : JS.str),
     now < 4500 →
     timer (step now (Message ct d (modelSays f)) (elapse now connected))
       = Some 4500) ∧
  (∀ horizon : Z,
     4500 <= horizon →
     sent (elapse horizon connected) = sent connected ++ [wakeStimulus] ∧
     timer (elapse horizon connected) = None ∧
     isThinking (elapse horizon connected) = true) ∧
  (∀ (now : Z) (ev : Event) (s0 : Session),
     cleanup (handle now ev s0) = false →
     isThinking s0 = false → isThinking (step now ev s0) = true →
     timer (step now ev s0) = Some (now + 4000)).
Proof. apply (watchdog_behaviour connected 4500); reflexivity. Defined.

(** A turn-complete 3.9 s after the wake stimulus cancels the timer,
    and no second stimulus is sent. *)
Example turn_complete_at_3900 :
  timer (step 4400 (Message 0 0 turnCompleteOnly) (elapse 4400 connected))
    = None ∧
  sent (elapse 60000
          (step 4400 (Message 0 0 turnCompleteOnly) (elapse 4400 connected)))
    = [wakeStimulus].
Proof. split; vm_compute; reflexivity. Qed.

(** C2, as stated, fails twice. The wake stimulus is sent at 500 ms
    and the watchdog is due at 4500 ms. (1) A model transcript fragment
    at 1000 ms does not cancel it: the timer is still pending after the
    message and a second stimulus is sent at 4500 ms. (2) When nothing
    arrives, the second stimulus is sent at 4500 ms, after which no
    timer is pending and nothing more is sent within a minute: the
    timer has not restarted. *)
Lemma watchdog_counterexample :
  isThinking connected = true ∧ timer connected = Some 4500 ∧
  sent connected = [wakeStimulus] ∧
  timer (step 1000 (Message 0 0 (modelSays (JS.lit "Bom dia")))
           (elapse 1000 connected)) = Some 4500 ∧
  sent (elapse 4500
          (step 1000 (Message 0 0 (modelSays (JS.lit "Bom dia")))
             (elapse 1000 connected))) = [wakeStimulus; wakeStimulus] ∧
  timer (elapse 4500 connected) = None ∧
  sent (elapse 60000 connected) = [wakeStimulus; wakeStimulus].
Proof. repeat split; vm_compute; reflexivity. Qed.

(** *** The microphone gate *)

Lemma mount_captureFixed suspended : captureFixed (mount suspended).
Proof. destruct suspended; split; auto. Qed.

Lemma handle_captureFixed now ev s :
  captureFixed s → captureFixed (handle now ev s).
Proof.
  intros [Henv Hproc]. unfold captureFixed.
  destruct ev as [resumed granted| |ct d msg| | | | | | |]; simpl;
    try (unfold triggerModel, handleStartInteraction, sendRealtimeInput,
           onended, onaudioprocess, toggleMic, onclose, onerror, unmount;
         repeat case_match; simpl; tauto).
  - unfold onopen. repeat case_match; simpl; rewrite ?Henv; auto.
  - by rewrite onmessage_effect_isMicOn, onmessage_scriptProcessorRef.
  - destruct (scriptProcessorRef s) as [h|] eqn:Hh; [|by rewrite Hh].
    unfold onaudioprocess, sendRealtimeInput.
    destruct (negb _); simpl; by rewrite ?Hh.
Qed.

Lemma step_captureFixed now ev s :
  captureFixed s → captureFixed (step now ev s).
Proof.
  intros Hs. unfold captureFixed.
  rewrite (step_untouched effect_isMicOn) by apply untouched_effect_isMicOn.
  rewrite (step_untouched scriptProcessorRef)
    by apply untouched_scriptProcessorRef.
  by apply handle_captureFixed.
Qed.

Lemma run_captureFixed trace s : captureFixed s → captureFixed (run trace s).
Proof.
  revert s. induction trace as [|[now ev] trace IH]; intros s Hs; [done|].
  simpl. apply IH, step_captureFixed. unfold captureFixed.
  rewrite (elapse_untouched effect_isMicOn) by apply untouched_effect_isMicOn.
  by rewrite (elapse_untouched scriptProcessorRef)
    by apply untouched_scriptProcessorRef.
Qed.

(** Whatever happened since mount, a captured frame is sent as soon as
    the processor exists: the handler in place is the one of [onopen],
    whose [isMicOn] is the constant [true] of the first render. The
    mute button has no part in it. *)
Lemma capture_never_gated trace suspended now frame :
  scriptProcessorRef (run trace (mount suspended)) ≠ None →
  sent (step now (AudioProcess frame) (run trace (mount suspended))) =
    sent (run trace (mount suspended)) ++
      [createAudioBlob (Microphone frame) Constants.AUDIO_SAMPLE_RATE_INPUT].
Proof.
  intros Hproc.
  destruct (run_captureFixed trace (mount suspended)
              (mount_captureFixed suspended)) as [_ [Hnone|Hsome]]; [done|].
  unfold step. rewrite commit_sent. simpl. by rewrite Hsome.
Qed.

(** The handler that reads the ref does gate on the latest value; it
    is the one the mount-time effect would install, had the processor
    existed when the effect ran. *)
Lemma ref_handler_gates frame s :
  onaudioprocess CaptureRef frame s =
    if isMicOnRef s
    then sendRealtimeInput
           (createAudioBlob (Microphone frame) Constants.AUDIO_SAMPLE_RATE_INPUT) s
    else s.
Proof. unfold onaudioprocess. by destruct (isMicOnRef s). Qed.

Lemma ref_follows_state now ev s : isMicOnRef (step now ev s) = isMicOn (step now ev s).
Proof.
  unfold step. rewrite commit_isMicOnRef.
  symmetry. apply untouched_isMicOn.
Qed.

(** C1 fails on the code. The session is connected and the user mutes
    the microphone at 1000 ms: [isMicOn] and [isMicOnRef.current] are
    false, the processor still carries the handler of [onopen], and
    the frame captured at 1100 ms is encoded and sent. *)
Theorem muted_frame_is_sent :
  isMicOn muted = false ∧ isMicOnRef muted = false ∧
  scriptProcessorRef muted = Some (CaptureClosure true) ∧
  sent (step 1100 (AudioProcess 7) muted) =
    sent muted ++
      [createAudioBlob (Microphone 7) Constants.AUDIO_SAMPLE_RATE_INPUT].
Proof. repeat split; vm_compute; reflexivity. Qed.

(** *** Thought stripping *)

Lemma cleanText_plain text :
  JS.startsWith text thought_marker = false → cleanText text = text.
Proof. intros H. unfold cleanText. by rewrite H. Qed.

Example cleanText_whole :
  cleanText (thought_marker ++ JS.lit ": greet the user<ctrl95>Bom dia")
    = JS.lit "Bom dia".
Proof. vm_compute. reflexivity. Qed.

Example cleanText_no_delimiter :
  cleanText (thought_marker ++ JS.lit ": greet") = [].
Proof. vm_compute. reflexivity. Qed.

Example thought_whole_is_stripped :
  map text (messages (run (utter modelSays thoughtWhole) connected))
    = [JS.lit "Bom dia"].
Proof. vm_compute. reflexivity. Qed.

(** C3 fails on the code. The stream opens with the thought marker and
    is cut before the delimiter. After the first fragment the visible
    text is empty; the stored text being the cleaned one, the marker is
    gone when the second fragment is joined, and the visible text is
    that fragment as received, with the end of the thought and the
    delimiter in it. *)
Theorem thought_leaks_when_split :
  concat thoughtSplit.*2 = concat thoughtWhole.*2 ∧
  map text (messages (run (utter modelSays (take 1 thoughtSplit)) connected))
    = [ [] ] ∧
  map text (messages (run (utter modelSays thoughtSplit) connected))
    = [JS.lit " the user<ctrl95>Bom dia"].
Proof. repeat split; vm_compute; reflexivity. Qed.

(** *** Turn completion *)

(** With a transcription in the same message, turn-complete finalizes
    the trailing message. *)
Lemma turnComplete_with_text_finalizes now ct d msg s :
  cleanup s = false →
  from_option turnComplete false (serverContent msg) = true →
  JS.truthy (serverContent msg ≫= inputTranscription)
    || JS.truthy (serverContent msg ≫= outputTranscription) = true →
  ∃ init m, messages (step now (Message ct d msg) s) = init ++ [m] ∧
            isPartial m = false.
Proof.
  intros Hc Htc Htext.
  rewrite (step_untouched messages) by apply untouched_messages.
  simpl. rewrite onmessage_messages, Htext, Htc by done.
  unfold updater, markComplete.
  set (l := pushOutput now _ (pushInput now _ (messages s))).
  assert (Hne : l ≠ []).
  { unfold l, pushOutput, pushInput.
    apply orb_true_iff in Htext as [Hin|Hout].
    - destruct (serverContent msg ≫= inputTranscription) as [[|c f]|];
        try done.
      repeat case_match; simplify_eq;
        try (intros Hnil; by apply app_nil in Hnil as [_ ?]);
        try (intros Hnil; apply (f_equal length) in Hnil;
             rewrite ?length_alter, ?length_app in Hnil; simpl in Hnil;
             try lia).
      all: try (match goal with
                | H : ?l !! _ = Some _ |- _ =>
                    apply lookup_lt_Some in H;
                    rewrite ?length_alter, ?length_app in H; simpl in H; lia
                end).
    - destruct (serverContent msg ≫= outputTranscription) as [[|c f]|];
        try done.
      repeat case_match; simplify_eq;
        try (intros Hnil; by apply app_nil in Hnil as [_ ?]);
        try (intros Hnil; apply (f_equal length) in Hnil;
             rewrite ?length_alter, ?length_app in Hnil; simpl in Hnil;
             try lia).
      all: try (match goal with
                | H : ?l !! _ = Some _ |- _ =>
                    apply lookup_lt_Some in H;
                    rewrite ?length_alter, ?length_app in H; simpl in H; lia
                end). }
  destruct (exists_last Hne) as (init & m & Hl). rewrite Hl.
  exists init, (finalize m). by rewrite alter_last_snoc.
Qed.

(** Without one, it leaves the transcript as it is. *)
Lemma turnComplete_alone_keeps_messages now ct d msg s :
  JS.truthy (serverContent msg ≫= inputTranscription)
    || JS.truthy (serverContent msg ≫= outputTranscription) = false →
  messages (step now (Message ct d msg) s) = messages s.
Proof.
  intros Htext.
  rewrite (step_untouched messages) by apply untouched_messages. simpl.
  destruct (cleanup s) eqn:Hc; [by rewrite onmessage_unmounted|].
  by rewrite onmessage_messages, Htext.
Qed.

(** C4 fails on the code. The model's message "Bom" is open; a
    message that carries the turn-complete signal and no transcription
    arrives at 3000 ms. The turn count goes up by one, and the trailing
    message is still partial. *)
Theorem turnComplete_alone_leaves_partial :
  messages answerBegun =
    [ {| id := JS.toString 2000; role := model; text := JS.lit "Bom";
         isPartial := true |} ] ∧
  turnCount (step 3000 (Message 0 0 turnCompleteOnly) answerBegun)
    = S (turnCount answerBegun) ∧
  messages (step 3000 (Message 0 0 turnCompleteOnly) answerBegun) =
    [ {| id := JS.toString 2000; role := model; text := JS.lit "Bom";
         isPartial := true |} ].
Proof. repeat split; vm_compute; reflexivity. Qed.

(** What follows from it: the model's next turn is joined to the
    message of the turn that has ended. *)
Example next_turn_joins_previous :
  map text (messages
    (run [ (3000, Message 0 0 turnCompleteOnly);
           (5000, Message 0 0 (modelSays (JS.lit "Como vai?"))) ]
         answerBegun))
    = [JS.lit "BomComo vai?"].
Proof. vm_compute. reflexivity. Qed.

(** The first model fragment of a transcript opens a message whose text
    is the cleaned fragment. *)
Lemma step_modelSays_opens now ct d f s :
  cleanup s = false → messages s = [] → f ≠ [] →
  messages (step now (Message ct d (modelSays f)) s) =
    [ {| id := JS.toString now; role := model; text := cleanText f;
         isPartial := true |} ].
Proof.
  intros Hc Hmsgs Hf.
  rewrite (step_untouched messages) by apply untouched_messages.
  simpl. rewrite onmessage_messages by done.
  destruct f as [|c f]; [done|]. simpl.
  unfold updater, markComplete, pushOutput, pushInput. by rewrite Hmsgs.
Qed.

(** The leak in general: when the first fragment opens with the marker
    and has no delimiter, the transcript shows the second fragment as
    received, whatever it holds. *)
Lemma thought_split_shows_second_fragment now1 now2 pre f2 s :
  cleanup s = false → messages s = [] →
  length (JS.split (thought_marker ++ pre) ctrl95) = 1%nat →
  f2 ≠ [] → JS.startsWith f2 thought_marker = false →
  map text (messages
    (run (utter modelSays [(now1, thought_marker ++ pre); (now2, f2)]) s))
    = [f2].
Proof.
  intros Hc Hmsgs Hone Hf2 Hplain. cbn [utter map run fst snd].
  assert (Hc1 : cleanup (elapse now1 s) = false)
    by (by rewrite (elapse_untouched cleanup) by apply untouched_cleanup).
  assert (Hm1 : messages (elapse now1 s) = [])
    by (by rewrite (elapse_untouched messages) by apply untouched_messages).
  set (s1 := step now1 _ (elapse now1 s)).
  assert (Hs1 : messages s1 =
            [] ++ [ {| id := JS.toString now1; role := model; text := [];
                       isPartial := true |} ]).
  { unfold s1. rewrite step_modelSays_opens; [|done|done|by destruct pre].
    unfold cleanText. rewrite JSFacts.startsWith_app, Hone. done. }
  assert (Hc2 : cleanup (elapse now2 s1) = false).
  { rewrite (elapse_untouched cleanup) by apply untouched_cleanup.
    unfold s1. by rewrite step_cleanup. }
  rewrite (step_modelSays now2 0 0 f2 (elapse now2 s1) []
             {| id := JS.toString now1; role := model; text := [];
                isPartial := true |}); try done.
  - simpl. by rewrite cleanText_plain.
  - by rewrite (elapse_untouched messages) by apply untouched_messages.
Qed.

End LiveSessionFacts.
